(** * tool/mcptoolset/session_manager.go: the header-keyed MCP session pool

    A shallow embedding of the session manager of package [mcptoolset] and
    the properties of its key derivation, its pool operations and its
    header-injecting HTTP transport.

    The source file exists in two revisions.  The first declares the
    exported type [SessionManager]; the second declares [sessionManager],
    adds [headersAffectSession] and drops the request-body guard of
    [headerTransport.RoundTrip].  Functions whose text is the same in both
    revisions are embedded once; the ones that differ live in the modules
    [Exported] and [Internal]. *)

From Stdlib Require Import NArith ZArith Strings.Ascii Strings.String Strings.Byte.
From stdpp Require Import base tactics option list sorting vector gmap strings.

Local Open Scope string_scope.
Local Open Scope list_scope.

(** ** Go values *)

(** A Go [string] is a sequence of bytes; [string] (a list of 8-bit [ascii])
    is exactly that.  [[]byte(s)] is [list_byte_of_string s]. *)

(** [map[string]string].  A Go map variable is either [nil] ([None]) or a
    reference to a table; reading a [nil] map behaves like reading an empty
    one.  The pool never writes to a header map. *)
Abbreviation StringMap := (option (gmap string string)).

(** The table behind a header map, [nil] read as empty. *)
Definition entries (headers : StringMap) : gmap string string :=
  default ∅ headers.

(** [len(headers)]. *)
Definition len (headers : StringMap) : nat := size (entries headers).

(** [headers[k]]: the zero value [""] for an absent key. *)
Definition index (headers : StringMap) (k : string) : string :=
  default "" (entries headers !! k).

(** [for k := range headers] visits every key once, in an order the
    language leaves unspecified and that changes from one loop to the next.
    [range_keys headers ks] says that [ks] is one such order. *)
Definition range_keys (headers : StringMap) (ks : list string) : Prop :=
  ks ≡ₚ (map_to_list (entries headers)).*1.

(** One admissible order, used where the result does not depend on it. *)
Definition some_range_keys (headers : StringMap) : list string :=
  (map_to_list (entries headers)).*1.

(** ** The standard-library functions the key derivation calls *)

(** [strconv.Quote] (the [%q] verb of [fmt]) depends on Unicode tables and
    [crypto/md5] is a library of its own; the key derivation is embedded
    over any implementation of the two.  The digest has Go type [[16]byte]. *)
Class GoLib := {
  Quote : string → string;
  md5_Sum : list byte → vec byte 16;
}.

(** [sort.Strings]: ascending order of the byte-wise comparison of Go's
    [<] on strings, which is [String.le]. *)
Definition sort_Strings (keys : list string) : list string :=
  merge_sort String.le keys.

(** [strings.Join(elems, sep)]. *)
Fixpoint Join (elems : list string) (sep : string) : string :=
  match elems with
  | [] => ""
  | [e] => e
  | e :: rest => e +:+ sep +:+ Join rest sep
  end.

(** [encoding/hex]: [hextable[v>>4]] then [hextable[v&0x0f]] per byte. *)
Definition hextable : string := "0123456789abcdef".

Definition hextable_at (i : N) : ascii :=
  default "0"%char (String.get (N.to_nat i) hextable).

Fixpoint EncodeToString (src : list byte) : string :=
  match src with
  | [] => ""
  | v :: rest =>
      String (hextable_at (N.shiftr (Byte.to_N v) 4))
        (String (hextable_at (N.land (Byte.to_N v) 15)) (EncodeToString rest))
  end.

(** [fmt.Sprintf("%q:%q", k, v)]. *)
Definition Sprintf_q_q `{GoLib} (k v : string) : string :=
  Quote k +:+ ":" +:+ Quote v.

(** ** An instance of the library functions

    [crypto/md5] after RFC 1321, with 32-bit words as [Z] and the
    wrap-around written out, and [strconv.Quote] on ASCII text.  The
    theorems below hold for every [GoLib]; this instance evaluates the key
    derivation on concrete header maps. *)
Module md5.
Local Open Scope Z_scope.

Definition u32 (x : Z) : Z := x mod 2 ^ 32.
Definition not32 (x : Z) : Z := Z.lxor x 0xffffffff.
Definition rotl (x c : Z) : Z :=
  u32 (Z.lor (Z.shiftl x c) (Z.shiftr x (32 - c))).

Definition K : list Z :=
  [ 0xd76aa478; 0xe8c7b756; 0x242070db; 0xc1bdceee;
    0xf57c0faf; 0x4787c62a; 0xa8304613; 0xfd469501;
    0x698098d8; 0x8b44f7af; 0xffff5bb1; 0x895cd7be;
    0x6b901122; 0xfd987193; 0xa679438e; 0x49b40821;
    0xf61e2562; 0xc040b340; 0x265e5a51; 0xe9b6c7aa;
    0xd62f105d; 0x02441453; 0xd8a1e681; 0xe7d3fbc8;
    0x21e1cde6; 0xc33707d6; 0xf4d50d87; 0x455a14ed;
    0xa9e3e905; 0xfcefa3f8; 0x676f02d9; 0x8d2a4c8a;
    0xfffa3942; 0x8771f681; 0x6d9d6122; 0xfde5380c;
    0xa4beea44; 0x4bdecfa9; 0xf6bb4b60; 0xbebfbc70;
    0x289b7ec6; 0xeaa127fa; 0xd4ef3085; 0x04881d05;
    0xd9d4d039; 0xe6db99e5; 0x1fa27cf8; 0xc4ac5665;
    0xf4292244; 0x432aff97; 0xab9423a7; 0xfc93a039;
    0x655b59c3; 0x8f0ccc92; 0xffeff47d; 0x85845dd1;
    0x6fa87e4f; 0xfe2ce6e0; 0xa3014314; 0x4e0811a1;
    0xf7537e82; 0xbd3af235; 0x2ad7d2bb; 0xeb86d391 ].

Definition shifts : list Z :=
  [ 7; 12; 17; 22; 7; 12; 17; 22; 7; 12; 17; 22; 7; 12; 17; 22;
    5; 9; 14; 20; 5; 9; 14; 20; 5; 9; 14; 20; 5; 9; 14; 20;
    4; 11; 16; 23; 4; 11; 16; 23; 4; 11; 16; 23; 4; 11; 16; 23;
    6; 10; 15; 21; 6; 10; 15; 21; 6; 10; 15; 21; 6; 10; 15; 21 ].

(** The four chaining words [a, b, c, d]. *)
Definition state : Type := Z * Z * Z * Z.

Definition init : state := (0x67452301, 0xefcdab89, 0x98badcfe, 0x10325476).

Definition round (M : list Z) (st : state) (i : nat) : state :=
  let '(a, b, c, d) := st in
  let iz := Z.of_nat i in
  let '(f, g) :=
    if (i <? 16)%nat then (Z.lor (Z.land b c) (Z.land (not32 b) d), iz)
    else if (i <? 32)%nat then
      (Z.lor (Z.land d b) (Z.land (not32 d) c), (5 * iz + 1) mod 16)
    else if (i <? 48)%nat then (Z.lxor (Z.lxor b c) d, (3 * iz + 5) mod 16)
    else (Z.lxor c (Z.lor b (not32 d)), (7 * iz) mod 16) in
  let f' := u32 (f + a + nth i K 0 + nth (Z.to_nat g) M 0) in
  (d, u32 (b + rotl f' (nth i shifts 0)), b, c).

Definition block (st : state) (M : list Z) : state :=
  let '(a0, b0, c0, d0) := st in
  let '(a, b, c, d) := foldl (round M) st (seq 0 64) in
  (u32 (a0 + a), u32 (b0 + b), u32 (c0 + c), u32 (d0 + d)).

(** Little-endian words of a byte sequence, four bytes each. *)
Fixpoint words (bs : list Z) : list Z :=
  match bs with
  | b0 :: b1 :: b2 :: b3 :: rest =>
      (b0 + 2 ^ 8 * b1 + 2 ^ 16 * b2 + 2 ^ 24 * b3) :: words rest
  | _ => []
  end.

Fixpoint chunks (n : nat) (ws : list Z) : list (list Z) :=
  match n with
  | O => []
  | S n' =>
      match ws with
      | [] => []
      | _ => take 16 ws :: chunks n' (drop 16 ws)
      end
  end.

Definition le_bytes (count : nat) (x : Z) : list Z :=
  (λ i : nat, (x / 2 ^ (8 * Z.of_nat i)) mod 256) <$> seq 0 count.

Definition pad (msg : list Z) : list Z :=
  let n := Z.of_nat (length msg) in
  msg ++ [0x80] ++ replicate (Z.to_nat ((55 - n) mod 64)) 0
      ++ le_bytes 8 ((8 * n) mod 2 ^ 64).

Definition to_byte (x : Z) : byte :=
  default "000"%byte (Byte.of_N (Z.to_N (x mod 256))).

Definition le32 (w : Z) : vec byte 4 :=
  [# to_byte w; to_byte (w / 2 ^ 8); to_byte (w / 2 ^ 16); to_byte (w / 2 ^ 24) ].

Definition Sum (data : list byte) : vec byte 16 :=
  let ws := words (pad ((λ b, Z.of_N (Byte.to_N b)) <$> data)) in
  let '(a, b, c, d) := foldl block init (chunks (length ws) ws) in
  le32 a +++ le32 b +++ le32 c +++ le32 d.
End md5.


(** [strconv.Quote] on a string of ASCII bytes: the quote and the backslash
    are backslashed, the seven control characters with a short escape use
    it, other control bytes become [\x] and two hexadecimal digits, and
    printable bytes stand for themselves.  Bytes from 0x80 on are written
    as [\x..], which is what Go does for bytes that are not valid UTF-8. *)
Definition dquote : ascii := ascii_of_N 34.
Definition backslash : ascii := ascii_of_N 92.

Definition appendEscapedByte (c : ascii) : string :=
  let n := N_of_ascii c in
  if (n =? 34)%N || (n =? 92)%N then String backslash (String c "")
  else if (32 <=? n)%N && (n <? 127)%N then String c ""
  else if (n =? 7)%N then "\a"
  else if (n =? 8)%N then "\b"
  else if (n =? 12)%N then "\f"
  else if (n =? 10)%N then "\n"
  else if (n =? 13)%N then "\r"
  else if (n =? 9)%N then "\t"
  else if (n =? 11)%N then "\v"
  else "\x" +:+ String (hextable_at (N.shiftr n 4))
                 (String (hextable_at (N.land n 15)) "").

Fixpoint appendEscaped (s : string) : string :=
  match s with
  | "" => ""
  | String c rest => appendEscapedByte c +:+ appendEscaped rest
  end.

Definition Quote_ascii (s : string) : string :=
  String dquote (appendEscaped s +:+ String dquote "").

Definition go_stdlib : GoLib :=
  {| Quote := Quote_ascii; md5_Sum := md5.Sum |}.

(** ** Errors *)

(** Go [error] values: the ones the protocol client hands out, and the two
    shapes this package builds with [fmt.Errorf].  [format] is the text
    before the verb. *)
#[warnings="-register-all"]
Inductive error :=
| ExternalError (msg : string)
| Errorf_w (format : string) (err : error)
| Errorf_v (format : string) (errs : list error).

(** [err.Error()]; [%v] prints a slice as its elements between brackets. *)
Fixpoint Error (e : error) : string :=
  match e with
  | ExternalError msg => msg
  | Errorf_w format err => format +:+ Error err
  | Errorf_v format errs => format +:+ "[" +:+ Join (Error <$> errs) " " +:+ "]"
  end.

(** [errors.Unwrap]: only [%w] keeps the cause reachable. *)
Definition Unwrap (e : error) : option error :=
  match e with
  | Errorf_w _ err => Some err
  | _ => None
  end.

(** ** Contexts *)

(** A [context.Context] as the chain of constructors that built it;
    durations and instants are nanoseconds. *)
Inductive Ctx :=
| Background
| WithCancel (parent : Ctx)
| WithDeadline (parent : Ctx) (d : Z)
| WithTimeout (parent : Ctx) (timeout : Z).

(** The second result of [ctx.Deadline()]. *)
Fixpoint hasDeadline (ctx : Ctx) : bool :=
  match ctx with
  | Background => false
  | WithCancel parent => hasDeadline parent
  | WithDeadline _ _ | WithTimeout _ _ => true
  end.

Definition Second : Z := 1000000000.

(** ** HTTP clients and transports *)

(** [headerTransport], over the type of round-trippers it wraps. *)
Record headerTransport_over (RT : Type) := mk_headerTransport {
  Base : option RT;
  Headers : StringMap;
}.
Arguments mk_headerTransport {RT} _ _.
Arguments Base {RT} _.
Arguments Headers {RT} _.

(** The values of interface type [http.RoundTripper]: the default
    transport, this package's [*headerTransport], or any other
    implementation, told apart by an identifier. *)
#[warnings="-register-all"]
Inductive RoundTripper :=
| DefaultTransport
| OtherRoundTripper (id : nat)
| HeaderRoundTripper (t : headerTransport_over RoundTripper).

Abbreviation headerTransport := (headerTransport_over RoundTripper).

(** [http.Client].  The redirect policy is a function value and the jar an
    interface value; each is named by an identifier, [None] being [nil]. *)
Record http_Client := mk_http_Client {
  Transport : option RoundTripper;
  CheckRedirect : option nat;
  Jar : option nat;
  Timeout : Z;
}.

(** [&http.Client{}] *)
Definition zero_Client : http_Client :=
  {| Transport := None; CheckRedirect := None; Jar := None; Timeout := 0 |}.

(** The values of interface type [mcp.Transport]: the two HTTP client
    transports of the SDK, with the fields this package reads, and every
    other implementation (stdio, in-memory, command, ...). *)
Inductive mcp_Transport :=
| SSEClientTransport (Endpoint : string) (HTTPClient : option http_Client)
| StreamableClientTransport (Endpoint : string) (HTTPClient : option http_Client)
| OtherTransport (id : nat).

Definition wrapHTTPClient (httpClient : option http_Client) (headers : StringMap)
  : http_Client :=
  let httpClient := default zero_Client httpClient in
  {| Transport :=
       Some (HeaderRoundTripper
               {| Base := httpClient.(Transport); Headers := headers |});
     CheckRedirect := httpClient.(CheckRedirect);
     Jar := httpClient.(Jar);
     Timeout := httpClient.(Timeout) |}.

(** ** The pool *)

(** [*mcp.Client] and [*mcp.ClientSession] are pointers into the SDK; a
    value is named by its identifier.  [Connect] returns a non-nil session
    whenever it returns no error, so stored sessions are never [nil]. *)
Abbreviation Client := nat (only parsing).
Abbreviation ClientSession := nat (only parsing).

Record sessionEntry := mk_sessionEntry {
  session : ClientSession;
  headers : StringMap;
}.

(** [SessionManager] and [sessionManager] have the same fields.  The mutex
    [mu] is left out: calls are embedded one at a time. *)
Record SessionManager := mk_SessionManager {
  client : Client;
  transport : mcp_Transport;
  sessions : gmap string sessionEntry;
}.

Definition NewSessionManager (client : Client) (transport : mcp_Transport)
  : SessionManager :=
  {| client := client; transport := transport; sessions := ∅ |}.

(** [sm.sessions = m] *)
Definition set_sessions (m : gmap string sessionEntry) (sm : SessionManager)
  : SessionManager :=
  {| client := sm.(client); transport := sm.(transport); sessions := m |}.

Definition wrapTransportWithHeaders (sm : SessionManager) (headers : StringMap)
  : mcp_Transport :=
  match sm.(transport) with
  | SSEClientTransport Endpoint HTTPClient =>
      SSEClientTransport Endpoint (Some (wrapHTTPClient HTTPClient headers))
  | StreamableClientTransport Endpoint HTTPClient =>
      StreamableClientTransport Endpoint (Some (wrapHTTPClient HTTPClient headers))
  | OtherTransport _ => sm.(transport)
  end.

(** ** Key derivation *)

(** The part of [generateSessionKey] both revisions share, from the
    collected keys on: [keys] holds the header names in the order the
    [range] loop appended them. *)
Definition hashHeaders `{GoLib} (keys : list string) (headers : StringMap) : string :=
  let keys := sort_Strings keys in
  let pairs := (λ k, Sprintf_q_q k (index headers k)) <$> keys in
  let jsonStr := "{" +:+ Join pairs "," +:+ "}" in
  let h := md5_Sum (list_byte_of_string jsonStr) in
  EncodeToString (vec_to_list h).


(** ** The protocol client *)

(** The SDK calls the pool makes.  The client, its sessions and the network
    behind them are a state [W] the pool cannot see; each call reads and
    changes it.  [None] is a [nil] error. *)
Class Protocol (W : Type) := {
  Connect : Client → Ctx → mcp_Transport → W → (error + ClientSession) * W;
  Ping : ClientSession → Ctx → W → option error * W;
  Session_Close : ClientSession → W → option error * W;
}.

(** What one call into the SDK was given and what it answered. *)
Inductive Call :=
| ConnectCall (c : Client) (ctx : Ctx) (t : mcp_Transport) (r : error + ClientSession)
| PingCall (s : ClientSession) (ctx : Ctx) (r : option error)
| CloseCall (s : ClientSession) (r : option error).

(** A run carries the state of the outside world and the calls made so
    far, oldest first. *)
Record Run (W : Type) := mk_Run {
  world : W;
  calls : list Call;
}.
Arguments mk_Run {W} _ _.
Arguments world {W} _.
Arguments calls {W} _.

Definition Go (W A : Type) : Type := Run W → A * Run W.

(** The monad of such runs, with stdpp's [x ← m; k]. *)
Global Instance Go_ret {W} : MRet (Go W) := λ A a r, (a, r).

Global Instance Go_bind {W} : MBind (Go W) :=
  λ A B k m r, let '(a, r') := m r in k a r'.

Definition call_Connect `{Protocol W} (c : Client) (ctx : Ctx) (t : mcp_Transport)
  : Go W (error + ClientSession) :=
  λ r, let '(res, w) := Connect c ctx t r.(world) in
       (res, mk_Run w (r.(calls) ++ [ConnectCall c ctx t res])).

Definition call_Ping `{Protocol W} (s : ClientSession) (ctx : Ctx)
  : Go W (option error) :=
  λ r, let '(res, w) := Ping s ctx r.(world) in
       (res, mk_Run w (r.(calls) ++ [PingCall s ctx res])).

Definition call_Close `{Protocol W} (s : ClientSession) : Go W (option error) :=
  λ r, let '(res, w) := Session_Close s r.(world) in
       (res, mk_Run w (r.(calls) ++ [CloseCall s res])).

(** A protocol client for evaluating the pool: the state says what the
    peer will answer.  [Connect] hands out session [next_session] unless
    the peer refuses; a session answers probes until it is closed or
    killed; closing fails for the sessions listed in [failing_close]. *)
Record Peer := mk_Peer {
  next_session : nat;
  refusing : bool;
  dead : list nat;
  failing_close : list nat;
}.

Global Instance Peer_protocol : Protocol Peer := {|
  Connect _ _ _ w :=
    if w.(refusing) then (inl (ExternalError "connection refused"), w)
    else (inr w.(next_session),
          mk_Peer (S w.(next_session)) w.(refusing) w.(dead) w.(failing_close));
  Ping s _ w :=
    if bool_decide (s ∈ w.(dead)) then (Some (ExternalError "connection closed"), w)
    else (None, w);
  Session_Close s w :=
    (if bool_decide (s ∈ w.(failing_close))
     then Some (ExternalError "close failed") else None,
     mk_Peer w.(next_session) w.(refusing) (s :: w.(dead)) w.(failing_close));
|}.

(** The calls made between two points of a run. *)
Definition calls_during {W} (before after : Run W) : list Call :=
  drop (length before.(calls)) after.(calls).

(** The liveness probes among the calls. *)
Definition is_probe (c : Call) : Prop :=
  match c with
  | PingCall _ _ _ => True
  | _ => False
  end.

(** ** GetSession, isSessionValid and Close

    Their text is the same in both revisions; [generateSessionKey] is the
    revision's. *)
Section Pool.
Context `{Protocol W}.
Variable generateSessionKey : SessionManager → StringMap → string.

(** The context of the probe: [ctx] itself when it carries a deadline,
    [context.WithTimeout(ctx, 2*time.Second)] when it does not. *)
Definition pingCtx (ctx : Ctx) : Ctx :=
  if negb (hasDeadline ctx) then WithTimeout ctx (2 * Second) else ctx.

(** [session] is a pointer, [None] for [nil]. *)
Definition isSessionValid (sm : SessionManager) (ctx : Ctx)
    (session : option ClientSession) : Go W bool :=
  match session with
  | None => mret false
  | Some session =>
      err ← call_Ping session (pingCtx ctx);
      match err with
      | Some _ => mret false
      | None => mret true
      end
  end.

(** From the call of [wrapTransportWithHeaders] to the end of [GetSession].
    The two results of [GetSession] are one value: [inr session] for
    [(session, nil)], [inl err] for [(nil, err)]. *)
Definition connect_and_store (sm : SessionManager) (ctx : Ctx)
    (headers : StringMap) (key : string)
  : Go W ((error + ClientSession) * SessionManager) :=
  let wrappedTransport := wrapTransportWithHeaders sm headers in
  res ← call_Connect sm.(client) ctx wrappedTransport;
  match res with
  | inl err => mret (inl (Errorf_w "failed to create session: " err), sm)
  | inr session =>
      mret (inr session,
           set_sessions
             (<[key := {| session := session; headers := headers |}]> sm.(sessions))
             sm)
  end.

(** From [sm.mu.Lock()] on. *)
Definition GetSession_locked (sm : SessionManager) (ctx : Ctx)
    (headers : StringMap) (key : string)
  : Go W ((error + ClientSession) * SessionManager) :=
  match sm.(sessions) !! key with
  | Some entry =>
      valid ← isSessionValid sm ctx (Some entry.(session));
      if (valid : bool) then mret (inr entry.(session), sm)
      else connect_and_store sm ctx headers key
  | None => connect_and_store sm ctx headers key
  end.

(** [GetSession] returns the result and the manager as the call leaves it
    (the receiver is a pointer; only [sessions] is ever assigned). *)
Definition GetSession (sm : SessionManager) (ctx : Ctx) (headers : StringMap)
  : Go W ((error + ClientSession) * SessionManager) :=
  let key := generateSessionKey sm headers in
  match sm.(sessions) !! key with
  | Some entry =>
      valid ← isSessionValid sm ctx (Some entry.(session));
      if (valid : bool) then mret (inr entry.(session), sm)
      else GetSession_locked sm ctx headers key
  | None => GetSession_locked sm ctx headers key
  end.

(** The loop of [Close] over the entries in the order [range] yields them. *)
Fixpoint close_entries (entries : list (string * sessionEntry)) (errs : list error)
  : Go W (list error) :=
  match entries with
  | [] => mret errs
  | (_, entry) :: rest =>
      err ← call_Close entry.(session);
      match err with
      | Some err => close_entries rest (errs ++ [err])
      | None => close_entries rest errs
      end
  end.

(** The call the loop makes for an entry, with the answer it got. *)
Definition close_call (e : string * sessionEntry) (a : option error) : Call :=
  CloseCall e.2.(session) a.

(** [Close], over the order in which [range sm.sessions] yields the
    entries. *)
Definition Close_in (entries : list (string * sessionEntry)) (sm : SessionManager)
  : Go W (option error * SessionManager) :=
  errs ← close_entries entries [];
  let sm := set_sessions ∅ sm in
  if decide (0 < length errs)
  then mret (Some (Errorf_v "errors closing sessions: " errs), sm)
  else mret (None, sm).

End Pool.

(** [range sm.sessions] visits every entry once, in an unspecified order. *)
Definition range_sessions (sm : SessionManager)
    (entries : list (string * sessionEntry)) : Prop :=
  entries ≡ₚ map_to_list sm.(sessions).

(** ** Requests *)

(** [http.Header], a [map[string][]string]. *)
Abbreviation http_Header := (gmap string (list string)).

Definition isLower (c : ascii) : bool :=
  let n := N_of_ascii c in (97 <=? n)%N && (n <=? 122)%N.

Definition isUpper (c : ascii) : bool :=
  let n := N_of_ascii c in (65 <=? n)%N && (n <=? 90)%N.

Definition isDigit (c : ascii) : bool :=
  let n := N_of_ascii c in (48 <=? n)%N && (n <=? 57)%N.

(** [net/textproto]: the bytes of an RFC 7230 token. *)
Definition validHeaderFieldByte (c : ascii) : bool :=
  isDigit c || isLower c || isUpper c
  || existsb (Ascii.eqb c) (list_ascii_of_string "!#$%&'*+-.^_`|~").

(** The rewriting loop of [canonicalMIMEHeaderKey]: upper case for the
    first letter and for a letter after a dash, lower case elsewhere. *)
Fixpoint canonicalize (upper : bool) (a : string) : string :=
  match a with
  | "" => ""
  | String c rest =>
      let c :=
        if upper && isLower c then ascii_of_N (N_of_ascii c - 32)
        else if negb upper && isUpper c then ascii_of_N (N_of_ascii c + 32)
        else c in
      String c (canonicalize (Ascii.eqb c "-") rest)
  end.

(** [textproto.CanonicalMIMEHeaderKey]: a key with a byte outside the token
    alphabet (a space included) is returned as it is. *)
Definition CanonicalMIMEHeaderKey (s : string) : string :=
  if forallb validHeaderFieldByte (list_ascii_of_string s)
  then canonicalize true s
  else s.

(** [h.Set(key, value)] on an allocated map. *)
Definition Header_Set (h : http_Header) (key value : string) : http_Header :=
  <[CanonicalMIMEHeaderKey key := [value]]> h.

(** [h.Get(key)]: the first value under the canonical key, or [""]. *)
Definition Header_Get (h : http_Header) (key : string) : string :=
  match h !! CanonicalMIMEHeaderKey key with
  | Some (v :: _) => v
  | _ => ""
  end.

(** Header maps are shared mutable objects: a request holds a reference
    into a heap of tables.  A reference with no table is a [nil] map. *)
Abbreviation Heap := (gmap nat http_Header).

(** The fields of [http.Request] a round-tripper sees; the body is named by
    an identifier, [None] for [nil]. *)
Record Request := mk_Request {
  Method : string;
  URL : string;
  Header : nat;
  Body : option nat;
  req_Context : Ctx;
}.

(** [req.Clone(ctx)]: a new request whose header is a deep copy in a fresh
    table; the copy of a [nil] header is [nil]. *)
Definition Clone (req : Request) (ctx : Ctx) (σ : Heap) : Request * Heap :=
  match σ !! req.(Header) with
  | None =>
      ({| Method := req.(Method); URL := req.(URL); Header := req.(Header);
          Body := req.(Body); req_Context := ctx |}, σ)
  | Some h =>
      let l := fresh (dom σ) in
      ({| Method := req.(Method); URL := req.(URL); Header := l;
          Body := req.(Body); req_Context := ctx |}, <[l := h]> σ)
  end.

(** The loop [for key, value := range t.Headers { req2.Header.Set(key, value) }]
    over the pairs in the order [range] yields them.  Writing to a [nil]
    map panics: [None]. *)
Fixpoint set_all (pairs : list (string * string)) (l : nat) (σ : Heap)
  : option Heap :=
  match pairs with
  | [] => Some σ
  | (key, value) :: rest =>
      match σ !! l with
      | None => None
      | Some h => set_all rest l (<[l := Header_Set h key value]> σ)
      end
  end.

(** [range t.Headers] visits every pair once, in an unspecified order. *)
Definition range_pairs (headers : StringMap) (pairs : list (string * string))
  : Prop :=
  pairs ≡ₚ map_to_list (entries headers).

Definition base (t : headerTransport) : RoundTripper :=
  match t.(Base) with
  | Some b => b
  | None => DefaultTransport
  end.

(** [RoundTrip] ends in the call [t.base().RoundTrip(r)] and returns what
    that call returns.  The embedding records the call: the round-tripper
    it goes to, the request it passes, the heap at that moment, and whether
    the deferred function of the wrapper closes the body of the incoming
    request when [RoundTrip] returns. *)
Record Forward := mk_Forward {
  next : RoundTripper;
  outgoing : Request;
  heap : Heap;
  closes_body : bool;
}.

Module Exported.

(** [generateSessionKey] of the revision with [SessionManager], the [range] order made explicit. *)
Definition generateSessionKey_in `{GoLib} (keys : list string)
    (sm : SessionManager) (headers : StringMap) : string :=
  if decide (len headers = 0) then "default"
  else hashHeaders keys headers.

Definition generateSessionKey `{GoLib} (sm : SessionManager) (headers : StringMap)
  : string :=
  generateSessionKey_in (some_range_keys headers) sm headers.


(** The deferred function: it is registered when the body is not [nil] and
    closes the body unless [reqBodyClosed] was set. *)
Definition deferred (req : Request) (reqBodyClosed : bool) : bool :=
  match req.(Body) with
  | Some _ => negb reqBodyClosed
  | None => false
  end.

(** [RoundTrip] of the revision with the body guard, the [range] order made
    explicit.  [None] is a panic. *)
Definition RoundTrip_in (pairs : list (string * string)) (t : headerTransport)
    (req : Request) (σ : Heap) : option Forward :=
  let reqBodyClosed := false in
  if decide (len t.(Headers) = 0) then
    let reqBodyClosed := true in
    Some {| next := base t; outgoing := req; heap := σ;
            closes_body := deferred req reqBodyClosed |}
  else
    let '(req2, σ) := Clone req req.(req_Context) σ in
    σ ← set_all pairs req2.(Header) σ;
    let reqBodyClosed := true in
    Some {| next := base t; outgoing := req2; heap := σ;
            closes_body := deferred req reqBodyClosed |}.

End Exported.

Module Internal.

Definition headersAffectSession (sm : SessionManager) : bool :=
  match sm.(transport) with
  | SSEClientTransport _ _ | StreamableClientTransport _ _ => true
  | OtherTransport _ => false
  end.

(** [generateSessionKey] of the revision with [sessionManager], the [range] order made explicit. *)
Definition generateSessionKey_in `{GoLib} (keys : list string)
    (sm : SessionManager) (headers : StringMap) : string :=
  if negb (headersAffectSession sm) then "default"
  else if decide (len headers = 0) then "default"
  else hashHeaders keys headers.

Definition generateSessionKey `{GoLib} (sm : SessionManager) (headers : StringMap)
  : string :=
  generateSessionKey_in (some_range_keys headers) sm headers.


(** [RoundTrip] of the revision without the guard. *)
Definition RoundTrip_in (pairs : list (string * string)) (t : headerTransport)
    (req : Request) (σ : Heap) : option Forward :=
  if decide (len t.(Headers) = 0) then
    Some {| next := base t; outgoing := req; heap := σ; closes_body := false |}
  else
    let '(req2, σ) := Clone req req.(req_Context) σ in
    σ ← set_all pairs req2.(Header) σ;
    Some {| next := base t; outgoing := req2; heap := σ; closes_body := false |}.

End Internal.

(** The header table after the loop of [RoundTrip] has run over [pairs]. *)
Definition set_pairs (h : http_Header) (pairs : list (string * string))
  : http_Header :=
  foldl (λ h p, Header_Set h p.1 p.2) h pairs.

(** ** The key derivation as the specification words it

    Independent of the code above: the pairs are put in order of their
    names by insertion, rendered and joined, and each digest byte is
    written as its two hexadecimal digits, high digit first. *)
Module Reference.

Fixpoint insert_by_name (p : string * string) (ps : list (string * string))
  : list (string * string) :=
  match ps with
  | [] => [p]
  | q :: rest =>
      if decide (String.le p.1 q.1) then p :: q :: rest
      else q :: insert_by_name p rest
  end.

Definition pairs_by_name (m : gmap string string) : list (string * string) :=
  foldr insert_by_name [] (map_to_list m).

(** The order the pairs are put in: by name, byte-wise. *)
Definition by_name (p q : string * string) : Prop := String.le p.1 q.1.

Definition quoted_pair `{GoLib} (p : string * string) : string :=
  Quote p.1 +:+ ":" +:+ Quote p.2.

Definition canonical_string `{GoLib} (m : gmap string string) : string :=
  "{" +:+ Join (quoted_pair <$> pairs_by_name m) "," +:+ "}".

Definition hex_digit (d : N) : ascii :=
  if (d <? 10)%N then ascii_of_N (48 + d) else ascii_of_N (87 + d).

Definition hex_of_byte (b : byte) : string :=
  let n := Byte.to_N b in
  String (hex_digit (n / 16)) (String (hex_digit (n mod 16)) "").

Definition fixed_width_hex (digest : list byte) : string :=
  foldr (λ b rest, hex_of_byte b +:+ rest) "" digest.

Definition Key `{GoLib} (headers : StringMap) : string :=
  match headers with
  | None => "default"
  | Some m =>
      if decide (m = ∅) then "default"
      else fixed_width_hex
             (vec_to_list (md5_Sum (list_byte_of_string (canonical_string m))))
  end.

End Reference.



(** ** Sample data *)

Definition bearer : StringMap := Some {[ "Authorization" := "Bearer t" ]}.

Definition stdio_manager : SessionManager :=
  NewSessionManager 0 (OtherTransport 0).

Definition refusing_peer : Peer := mk_Peer 7 true [] [].

Definition willing_peer : Peer := mk_Peer 7 false [] [].

Definition colliding : StringMap := Some (<["x-a" := "1"]> {[ "X-A" := "2" ]}).

Definition plain_request : Request :=
  {| Method := "GET"; URL := "http://localhost/mcp"; Header := 0;
     Body := None; req_Context := Background |}.

(** A pool holding session 1 under ["default"] and session 2 under ["k"],
    and a peer for which closing either session fails. *)
Definition two_sessions : SessionManager :=
  set_sessions
    (<["default" := mk_sessionEntry 1 None]>
       {[ "k" := mk_sessionEntry 2 bearer ]})
    stdio_manager.

Definition failing_peer : Peer := mk_Peer 3 false [] [1; 2].

(** A pool whose one session, 7, is stored under the key of [bearer], and a
    peer on which that session has died. *)
Definition one_session : SessionManager :=
  set_sessions
    {[ @Exported.generateSessionKey go_stdlib stdio_manager bearer
       := mk_sessionEntry 7 bearer ]} stdio_manager.

Definition peer_after_death : Peer := mk_Peer 8 false [7] [].

(** ** Pool invariant *)

(** Every entry of the sessions map sits under the key derived from the
    headers recorded in it. *)
Definition keyed_by (key_fn : SessionManager → StringMap → string)
    (sm : SessionManager) : Prop :=
  ∀ k entry, sm.(sessions) !! k = Some entry → key_fn sm entry.(headers) = k.

(** The calls [Close] is expected to make. *)
Definition is_close (c : Call) : Prop :=
  match c with
  | CloseCall _ _ => True
  | _ => False
  end.

(** ** The string that is hashed *)

(** [jsonStr] of [generateSessionKey], for the names collected in [keys]. *)
Definition jsonStr `{GoLib} (keys : list string) (headers : StringMap) : string :=
  let keys := sort_Strings keys in
  let pairs := (λ k, Sprintf_q_q k (index headers k)) <$> keys in
  "{" +:+ Join pairs "," +:+ "}".

(** A quoting function is self-delimiting when a quoted string can be read
    back off the front of any text: Go string literals are. *)
Definition self_delimiting (quote : string → string) : Prop :=
  ∀ s1 s2 r1 r2, quote s1 +:+ r1 = quote s2 +:+ r2 → s1 = s2 ∧ r1 = r2.

(** The value of a hexadecimal digit of [hextable]. *)
Definition unhex (c : ascii) : option N :=
  (λ p, N.of_nat p.1) <$> list_find (λ d, d = c) (list_ascii_of_string hextable).

(** Reads one escaped byte, as [appendEscapedByte] writes it, off the
    front of a text; a bare quote is not an escaped byte. *)
Definition unescapeByte (s : string) : option (ascii * string) :=
  match s with
  | "" => None
  | String c rest =>
      if Ascii.eqb c dquote then None
      else if negb (Ascii.eqb c backslash) then Some (c, rest)
      else
        match rest with
        | "" => None
        | String d rest =>
            if Ascii.eqb d dquote || Ascii.eqb d backslash then Some (d, rest)
            else if Ascii.eqb d "a" then Some (ascii_of_N 7, rest)
            else if Ascii.eqb d "b" then Some (ascii_of_N 8, rest)
            else if Ascii.eqb d "f" then Some (ascii_of_N 12, rest)
            else if Ascii.eqb d "n" then Some (ascii_of_N 10, rest)
            else if Ascii.eqb d "r" then Some (ascii_of_N 13, rest)
            else if Ascii.eqb d "t" then Some (ascii_of_N 9, rest)
            else if Ascii.eqb d "v" then Some (ascii_of_N 11, rest)
            else if Ascii.eqb d "x" then
              match rest with
              | String h (String l rest) =>
                  hi ← unhex h; lo ← unhex l;
                  Some (ascii_of_N (16 * hi + lo), rest)
              | _ => None
              end
            else None
        end
  end.

(** One rendered pair, and what follows the first element of a joined
    list. *)
Definition rendered_pair `{GoLib} (p : string * string) : string :=
  Sprintf_q_q p.1 p.2.

Definition tail_of (elems : list string) : string :=
  match elems with
  | [] => ""
  | _ => "," +:+ Join elems ","
  end.

(** * model/genai.go: the Gemini model *)

(** ** Iterators *)

(** [iter.Seq2[K, V]] is a function that pushes pairs to a callback
    [yield] until the callback returns [false].  A pair is one value [A]
    here, and the state the callback closes over is made explicit as [S]:
    [yield] returns whether to go on, and the new state. *)
Definition Seq2 (A : Type) : Type := ∀ S : Type, (A → S → bool * S) → S → S.

(** The iterator that pushes the elements of a list in order and stops
    when told to: what a well-behaved stream of finitely many items is. *)
Fixpoint push {A} (items : list A) : Seq2 A :=
  λ S yield s,
    match items with
    | [] => s
    | x :: rest =>
        let '(continue, s) := yield x s in
        if continue then push rest S yield s else s
    end.

(** The callback that keeps every value it is given and asks for more as
    long as [budget] lasts. *)
Definition collect {A} (x : A) (s : list A * nat) : bool * (list A * nat) :=
  let '(seen, budget) := s in
  (bool_decide (1 < budget), (seen ++ [x], pred budget)).

(** What a consumer sees of an iterator when it breaks out of its loop
    after [budget] values ([budget] at least 1). *)
Definition first_values {A} (it : Seq2 A) (budget : nat) : list A :=
  (it (list A * nat)%type collect ([], budget)).1.

Module genai.

(** The fields of [genai.Candidate] and [genai.GenerateContentResponse]
    the model reads; content and metadata are pointers, named by an
    identifier. *)
Record Candidate := mk_Candidate {
  Content : option nat;
  FinishReason : string;
  GroundingMetadata : option nat;
}.

Record GenerateContentResponse := mk_GenerateContentResponse {
  Candidates : list Candidate;
}.

(** What [client.Models] offers: the unary call and the stream, each a
    function of the model name, the contents and the configuration. *)
Record Client := mk_Client {
  Models_GenerateContent :
    Ctx → string → nat → nat → error + GenerateContentResponse;
  Models_GenerateContentStream :
    Ctx → string → nat → nat → Seq2 (error + GenerateContentResponse);
}.

End genai.

Module adk.

Record LLMResponse := mk_LLMResponse {
  Content : option nat;
  GroundingMetadata : option nat;
  Partial : bool;
  TurnComplete : bool;
  Interrupted : bool;
  ErrorCode : Z;
  ErrorMessage : string;
}.

(** The fields of [LLMRequest] the model passes on. *)
Record LLMRequest := mk_LLMRequest {
  Contents : nat;
  GenerateConfig : nat;
}.

End adk.

(** The errors [GenerateContent] yields: the ones it builds with
    [fmt.Errorf] and the ones of the client, passed on as they are. *)
Inductive model_error :=
| Errorf (msg : string)
| ClientError (err : error).

Record GeminiModel := mk_GeminiModel {
  model_client : option genai.Client;
  name : string;
}.

(** A value the stream of [GenerateContent] yields: [(nil, err)] or
    [(resp, nil)]. *)
Abbreviation Yielded := (model_error + adk.LLMResponse)%type.

(** The body of the loop over the client's stream: it returns [false]
    where the Go code returns from the iterator. *)
Definition stream_step {S} (yield : Yielded → S → bool * S)
    (item : error + genai.GenerateContentResponse) (s : S) : bool * S :=
  match item with
  | inl err => let '(_, s) := yield (inl (ClientError err)) s in (false, s)
  | inr resp =>
      match resp.(genai.Candidates) with
      | [] => let '(_, s) := yield (inl (Errorf "empty response")) s in (false, s)
      | candidate :: _ =>
          let complete := negb (String.eqb candidate.(genai.FinishReason) "") in
          let '(continue, s) :=
            yield (inr {| adk.Content := candidate.(genai.Content);
                          adk.GroundingMetadata := candidate.(genai.GroundingMetadata);
                          adk.Partial := negb complete;
                          adk.TurnComplete := complete;
                          adk.Interrupted := false;
                          adk.ErrorCode := 0;
                          adk.ErrorMessage := "" |}) s in
          if negb continue then (false, s) else (true, s)
      end
  end.

Definition GenerateContent (m : GeminiModel) (ctx : Ctx) (req : adk.LLMRequest)
    (stream : bool) : model_error + Seq2 Yielded :=
  match m.(model_client) with
  | None => inl (Errorf "uninitialized")
  | Some client =>
      if stream then
        inr (λ S yield s,
               client.(genai.Models_GenerateContentStream) ctx m.(name)
                 req.(adk.Contents) req.(adk.GenerateConfig) S
                 (stream_step yield) s)
      else
        inr (λ S yield s,
               match client.(genai.Models_GenerateContent) ctx m.(name)
                       req.(adk.Contents) req.(adk.GenerateConfig) with
               | inl err => (yield (inl (ClientError err)) s).2
               | inr resp =>
                   match resp.(genai.Candidates) with
                   | [] => (yield (inl (Errorf "empty response")) s).2
                   | candidate :: _ =>
                       (yield
                          (inr {| adk.Content := candidate.(genai.Content);
                                  adk.GroundingMetadata :=
                                    candidate.(genai.GroundingMetadata);
                                  adk.Partial := false;
                                  adk.TurnComplete := false;
                                  adk.Interrupted := false;
                                  adk.ErrorCode := 0;
                                  adk.ErrorMessage := "" |}) s).2
                   end
               end)
  end.

(** What the stream yields from the items of the client, as a list: the
    responses up to the first item that is an error or has no candidate,
    and then that one error. *)
Fixpoint yielded_from (items : list (error + genai.GenerateContentResponse))
  : list Yielded :=
  match items with
  | [] => []
  | inl err :: _ => [inl (ClientError err)]
  | inr resp :: rest =>
      match resp.(genai.Candidates) with
      | [] => [inl (Errorf "empty response")]
      | candidate :: _ =>
          let complete := negb (String.eqb candidate.(genai.FinishReason) "") in
          inr {| adk.Content := candidate.(genai.Content);
                 adk.GroundingMetadata := candidate.(genai.GroundingMetadata);
                 adk.Partial := negb complete;
                 adk.TurnComplete := complete;
                 adk.Interrupted := false;
                 adk.ErrorCode := 0;
                 adk.ErrorMessage := "" |} :: yielded_from rest
      end
  end.

(** A client whose stream pushes the given items and whose unary call
    answers with the given result. *)
Definition scripted_client (unary : error + genai.GenerateContentResponse)
    (items : list (error + genai.GenerateContentResponse)) : genai.Client :=
  {| genai.Models_GenerateContent _ _ _ _ := unary;
     genai.Models_GenerateContentStream _ _ _ _ := push items |}.

(** * Properties *)

(** ** The library instance on known digests *)

Example md5_empty :
  EncodeToString (vec_to_list (md5.Sum [])) = "d41d8cd98f00b204e9800998ecf8427e".
Proof. vm_compute. reflexivity. Qed.

Example md5_abc :
  EncodeToString (vec_to_list (md5.Sum (list_byte_of_string "abc")))
  = "900150983cd24fb0d6963f7d28e17f72".
Proof. vm_compute. reflexivity. Qed.

Example md5_two_blocks :
  EncodeToString (vec_to_list (md5.Sum (replicate 119 "a"%byte)))
  = "8a7bd0732ed6a28ce75f6dabc90e1613".
Proof. vm_compute. reflexivity. Qed.

Example key_of_one_header :
  @Exported.generateSessionKey go_stdlib (NewSessionManager 0 (OtherTransport 0))
    (Some {[ "a" := "b" ]})
  = "92eff9dda44cb8003ee13990782580ff".
Proof. vm_compute. reflexivity. Qed.

Example key_of_two_headers :
  @Exported.generateSessionKey go_stdlib (NewSessionManager 0 (OtherTransport 0))
    (Some (<[ "b" := "2" ]> {[ "A" := "1" ]}))
  = "3f6c3ae3258a360dbb052d4fc717ed2c".
Proof. vm_compute. reflexivity. Qed.

(** ** Sorting the header names *)

Lemma sort_Strings_sorted keys : Sorted String.le (sort_Strings keys).
Proof. apply (Sorted_merge_sort String.le). Qed.

Lemma sort_Strings_perm keys : sort_Strings keys ≡ₚ keys.
Proof. apply merge_sort_Permutation. Qed.

(** The sorted list depends on the names collected, not on the order in
    which the loop met them. *)
Lemma sort_Strings_order keys1 keys2 :
  keys1 ≡ₚ keys2 → sort_Strings keys1 = sort_Strings keys2.
Proof.
  intros Hp. apply (Sorted_unique String.le); try apply sort_Strings_sorted.
  by rewrite !sort_Strings_perm.
Qed.

Lemma hashHeaders_order `{GoLib} keys1 keys2 headers :
  keys1 ≡ₚ keys2 → hashHeaders keys1 headers = hashHeaders keys2 headers.
Proof. intros Hp. unfold hashHeaders. by rewrite (sort_Strings_order _ _ Hp). Qed.

Lemma range_keys_some headers : range_keys headers (some_range_keys headers).
Proof. unfold range_keys, some_range_keys. reflexivity. Qed.

(** Header maps with the same pairs have the same table. *)
Lemma same_pairs_entries (h1 h2 : StringMap) :
  (∀ k v, entries h1 !! k = Some v ↔ entries h2 !! k = Some v) →
  entries h1 = entries h2.
Proof.
  intros Hsame. apply map_eq. intros k.
  destruct (entries h1 !! k) as [v|] eqn:E1.
  - symmetry. by apply Hsame.
  - destruct (entries h2 !! k) as [v|] eqn:E2; [|done].
    apply Hsame in E2. congruence.
Qed.

Lemma hashHeaders_entries `{GoLib} keys (h1 h2 : StringMap) :
  entries h1 = entries h2 → hashHeaders keys h1 = hashHeaders keys h2.
Proof.
  intros He. unfold hashHeaders.
  assert (index h1 = index h2) as ->; [|done].
  unfold index. by rewrite He.
Qed.

(** ** Hexadecimal encoding *)






(** ** The session key *)

Lemma headersAffectSession_spec sm :
  Internal.headersAffectSession sm = true
  ↔ ∃ Endpoint HTTPClient,
      sm.(transport) = SSEClientTransport Endpoint HTTPClient
      ∨ sm.(transport) = StreamableClientTransport Endpoint HTTPClient.
Proof.
  unfold Internal.headersAffectSession. split.
  - destruct (transport sm) as [e c|e c|id]; intros Ht; [eauto..|discriminate].
  - intros (e & c & [-> | ->]); done.
Qed.

(** C1.  In the revision that classifies transports, a pool whose transport
    is neither the SSE nor the streamable HTTP client transport derives the
    key ["default"] from every header map, whatever it holds and in
    whatever order its names are visited. *)
Theorem generateSessionKey_header_insensitive `{GoLib}
    (keys : list string) (sm : SessionManager) (headers : StringMap) :
  (∀ Endpoint HTTPClient,
     sm.(transport) ≠ SSEClientTransport Endpoint HTTPClient) →
  (∀ Endpoint HTTPClient,
     sm.(transport) ≠ StreamableClientTransport Endpoint HTTPClient) →
  Internal.generateSessionKey_in keys sm headers = "default"
  ∧ Internal.generateSessionKey sm headers = "default".
Proof.
  intros Hsse Hstr.
  assert (Internal.headersAffectSession sm = false) as Hno.
  { apply not_true_is_false. rewrite headersAffectSession_spec.
    intros (e & c & [Ht | Ht]); [exact (Hsse _ _ Ht) | exact (Hstr _ _ Ht)]. }
  unfold Internal.generateSessionKey, Internal.generateSessionKey_in.
  by rewrite Hno.
Qed.

Lemma generateSessionKey_header_insensitive_witness :
  @Internal.generateSessionKey_in go_stdlib ["Authorization"]
    (NewSessionManager 0 (OtherTransport 0))
    (Some {[ "Authorization" := "Bearer t" ]}) = "default"
  ∧ @Internal.generateSessionKey go_stdlib
      (NewSessionManager 0 (OtherTransport 0))
      (Some {[ "Authorization" := "Bearer t" ]}) = "default".
Proof.
  apply (@generateSessionKey_header_insensitive go_stdlib);
    intros e c; simpl; discriminate.
Defined.

Lemma len_zero_iff (headers : StringMap) :
  len headers = 0 ↔ headers = None ∨ headers = Some ∅.
Proof.
  unfold len, entries. destruct headers as [m|]; simpl.
  - rewrite map_size_empty_iff. split; [intros ->; by right|].
    intros [Hm | Hm]; by simplify_eq.
  - rewrite map_size_empty. split; [by left | done].
Qed.



(** The derived key does not depend on the order in which the map yields
    its names. *)
Lemma generateSessionKey_in_order `{GoLib} keys sm headers :
  range_keys headers keys →
  Exported.generateSessionKey_in keys sm headers
  = Exported.generateSessionKey sm headers
  ∧ Internal.generateSessionKey_in keys sm headers
    = Internal.generateSessionKey sm headers.
Proof.
  intros Hk.
  unfold Exported.generateSessionKey, Internal.generateSessionKey,
    Exported.generateSessionKey_in, Internal.generateSessionKey_in.
  by rewrite (hashHeaders_order keys (some_range_keys headers)).
Qed.

(** C5.  Two header maps that hold the same name/value pairs get the same
    key, whatever the order in which each map yields its names. *)
Theorem generateSessionKey_same_pairs `{GoLib}
    (sm1 sm2 : SessionManager) (h1 h2 : StringMap) (keys1 keys2 : list string) :
  (∀ k v, entries h1 !! k = Some v ↔ entries h2 !! k = Some v) →
  range_keys h1 keys1 →
  range_keys h2 keys2 →
  Exported.generateSessionKey_in keys1 sm1 h1
  = Exported.generateSessionKey_in keys2 sm2 h2.
Proof.
  intros Hsame Hk1 Hk2. apply same_pairs_entries in Hsame.
  unfold range_keys in Hk1, Hk2. rewrite Hsame in Hk1.
  unfold Exported.generateSessionKey_in, len. rewrite Hsame.
  case_decide; [done|].
  rewrite (hashHeaders_order keys1 keys2) by (by rewrite Hk1, Hk2).
  by apply hashHeaders_entries.
Qed.

Lemma generateSessionKey_same_pairs_witness :
  @Exported.generateSessionKey_in go_stdlib ["a"; "b"]
    (NewSessionManager 0 (OtherTransport 0))
    (Some (<["a" := "1"]> {[ "b" := "2" ]}))
  = @Exported.generateSessionKey_in go_stdlib ["b"; "a"]
      (NewSessionManager 1 (SSEClientTransport "http://localhost/sse" None))
      (Some (<["b" := "2"]> {[ "a" := "1" ]})).
Proof.
  apply (@generateSessionKey_same_pairs go_stdlib).
  - intros k v.
    assert (entries (Some (<["a" := "1"]> {[ "b" := "2" ]}))
            = entries (Some (<["b" := "2"]> {[ "a" := "1" ]}))) as ->
      by (vm_compute; reflexivity).
    reflexivity.
  - unfold range_keys. vm_compute. first [reflexivity | apply perm_swap].
  - unfold range_keys. vm_compute. first [reflexivity | apply perm_swap].
Defined.



(** ** The key derivation against its reference definition *)

Section reference.
Context `{GoLib}.
Import Reference.

Lemma insert_by_name_perm p ps : insert_by_name p ps ≡ₚ p :: ps.
Proof.
  induction ps as [|q ps IH]; simpl; [done|].
  case_decide; [done|]. rewrite IH. apply perm_swap.
Qed.

Lemma insert_by_name_sorted p ps :
  Sorted by_name ps → Sorted by_name (insert_by_name p ps).
Proof.
  induction ps as [|q ps IH]; simpl; intros Hs.
  - by repeat constructor.
  - apply Sorted_inv in Hs as [Hs Hhd]. case_decide as Hle.
    + constructor; [by constructor|]. by constructor.
    + constructor; [by apply IH|].
      assert (by_name q p) as Hqp.
      { unfold by_name. by destruct (total String.le p.1 q.1). }
      destruct ps as [|r ps]; simpl; [by constructor|].
      case_decide; constructor; [done|]. by inv Hhd.
Qed.

Lemma pairs_by_name_perm m : pairs_by_name m ≡ₚ map_to_list m.
Proof.
  unfold pairs_by_name. induction (map_to_list m) as [|p ps IH]; simpl; [done|].
  by rewrite insert_by_name_perm, IH.
Qed.

Lemma pairs_by_name_sorted m : Sorted by_name (pairs_by_name m).
Proof.
  unfold pairs_by_name. induction (map_to_list m) as [|p ps IH]; simpl.
  - constructor.
  - by apply insert_by_name_sorted.
Qed.

(** Sorting the collected names gives the names of the pairs put in order. *)
Lemma sort_Strings_pairs_by_name keys m :
  keys ≡ₚ (map_to_list m).*1 → sort_Strings keys = (pairs_by_name m).*1.
Proof.
  intros Hk. apply (Sorted_unique String.le).
  - apply sort_Strings_sorted.
  - apply (Sorted_fmap _ by_name); [done | apply pairs_by_name_sorted].
  - by rewrite sort_Strings_perm, Hk, pairs_by_name_perm.
Qed.

Lemma pairs_by_name_index m p :
  p ∈ pairs_by_name m → index (Some m) p.1 = p.2.
Proof.
  rewrite pairs_by_name_perm. destruct p as [k v].
  rewrite elem_of_map_to_list. unfold index, entries. simpl. by intros ->.
Qed.

Lemma rendered_pairs m :
  (λ k, Sprintf_q_q k (index (Some m) k)) <$> (pairs_by_name m).*1
  = quoted_pair <$> pairs_by_name m.
Proof.
  rewrite <-list_fmap_compose. apply list_fmap_ext.
  intros i p Hp%list_elem_of_lookup_2. unfold Sprintf_q_q, quoted_pair. simpl.
  by rewrite (pairs_by_name_index m p Hp).
Qed.

Lemma hextable_at_hex_digit i : (i < 16)%N → hextable_at i = hex_digit i.
Proof.
  intros Hi.
  assert (i ∈ (N.of_nat <$> seq 0 16)) as Hin.
  { apply list_elem_of_fmap. exists (N.to_nat i). split; [lia|].
    apply elem_of_seq. lia. }
  simpl in Hin. set_unfold in Hin.
  repeat (destruct Hin as [-> | Hin]; [by vm_compute|]). done.
Qed.

Lemma EncodeToString_fixed_width_hex src :
  EncodeToString src = fixed_width_hex src.
Proof.
  induction src as [|v src IH]; simpl; [done|].
  rewrite IH. unfold hex_of_byte. simpl.
  pose proof (Byte.to_N_bounded v).
  rewrite N.shiftr_div_pow2. change (2 ^ 4)%N with 16%N.
  change 15%N with (N.ones 4). rewrite N.land_ones. change (2 ^ 4)%N with 16%N.
  rewrite !hextable_at_hex_digit; [done | by apply N.mod_lt |].
  apply N.Div0.div_lt_upper_bound. lia.
Qed.

Lemma hashHeaders_reference keys m :
  keys ≡ₚ (map_to_list m).*1 →
  hashHeaders keys (Some m)
  = fixed_width_hex
      (vec_to_list (md5_Sum (list_byte_of_string (canonical_string m)))).
Proof.
  intros Hk. unfold hashHeaders, canonical_string.
  by rewrite (sort_Strings_pairs_by_name keys m Hk), rendered_pairs,
    EncodeToString_fixed_width_hex.
Qed.

End reference.

(** C6.  The key derivation of [SessionManager] computes the reference
    definition: ["default"] for a nil or empty header map; otherwise the
    fixed-width hexadecimal rendering of the digest of the canonical
    string, the quoted ["name":"value"] pairs in ascending byte-wise order
    of their names, joined by commas between braces.  This holds for
    every order in which the map yields its names. *)
Theorem generateSessionKey_refines_reference `{GoLib}
    (keys : list string) (sm : SessionManager) (headers : StringMap) :
  range_keys headers keys →
  Exported.generateSessionKey_in keys sm headers = Reference.Key headers
  ∧ Exported.generateSessionKey sm headers = Reference.Key headers
  ∧ (Internal.headersAffectSession sm = true →
     Internal.generateSessionKey_in keys sm headers = Reference.Key headers).
Proof.
  assert (∀ ks, range_keys headers ks →
    Exported.generateSessionKey_in ks sm headers = Reference.Key headers) as Hin.
  { intros ks Hk. unfold Exported.generateSessionKey_in, Reference.Key.
    destruct headers as [m|].
    - destruct (decide (m = ∅)) as [-> | Hm].
      + by rewrite decide_True.
      + rewrite decide_False; [by apply hashHeaders_reference|].
        unfold len, entries. simpl. by rewrite map_size_empty_iff.
    - by rewrite decide_True. }
  intros Hk. split_and!; [by apply Hin | apply Hin, range_keys_some |].
  intros Haff. rewrite <-(Hin keys Hk).
  unfold Internal.generateSessionKey_in, Exported.generateSessionKey_in.
  by rewrite Haff.
Qed.

Lemma generateSessionKey_refines_reference_witness :
  @Exported.generateSessionKey_in go_stdlib ["b"; "a"]
    (NewSessionManager 0 (OtherTransport 0))
    (Some (<["a" := "1"]> {[ "b" := "2" ]}))
  = @Reference.Key go_stdlib (Some (<["a" := "1"]> {[ "b" := "2" ]}))
  ∧ @Exported.generateSessionKey go_stdlib
      (NewSessionManager 0 (OtherTransport 0))
      (Some (<["a" := "1"]> {[ "b" := "2" ]}))
    = @Reference.Key go_stdlib (Some (<["a" := "1"]> {[ "b" := "2" ]})).
Proof.
  assert (range_keys (Some (<["a" := "1"]> {[ "b" := "2" ]})) ["b"; "a"])
    as Hrange
    by (unfold range_keys; vm_compute; first [reflexivity | apply perm_swap]).
  destruct (@generateSessionKey_refines_reference go_stdlib ["b"; "a"]
              (NewSessionManager 0 (OtherTransport 0)) _ Hrange)
    as (Hin & Hkey & _).
  split; [exact Hin | exact Hkey].
Defined.

Example reference_key_of_two_headers :
  @Reference.Key go_stdlib (Some (<[ "b" := "2" ]> {[ "A" := "1" ]}))
  = "3f6c3ae3258a360dbb052d4fc717ed2c".
Proof. vm_compute. reflexivity. Qed.

(** ** Binding headers to the transport *)

(** C9.  Binding headers returns the base transport itself for every
    transport other than the two HTTP client transports.  For those it
    returns a transport of the same variant with the same endpoint, whose
    HTTP client has the redirect policy, the cookie jar and the timeout of
    the original client (of the zero client when there is none) and whose
    round-tripper is the header transport over the original one. *)
Theorem wrapTransportWithHeaders_binding
    (sm : SessionManager) (headers : StringMap) :
  match sm.(transport) with
  | SSEClientTransport Endpoint HTTPClient =>
      ∃ c, wrapTransportWithHeaders sm headers
           = SSEClientTransport Endpoint (Some c)
        ∧ c = wrapHTTPClient HTTPClient headers
  | StreamableClientTransport Endpoint HTTPClient =>
      ∃ c, wrapTransportWithHeaders sm headers
           = StreamableClientTransport Endpoint (Some c)
        ∧ c = wrapHTTPClient HTTPClient headers
  | OtherTransport _ => wrapTransportWithHeaders sm headers = sm.(transport)
  end
  ∧ (∀ original : http_Client,
       let c := wrapHTTPClient (Some original) headers in
       c.(CheckRedirect) = original.(CheckRedirect)
       ∧ c.(Jar) = original.(Jar)
       ∧ c.(Timeout) = original.(Timeout)
       ∧ c.(Transport)
         = Some (HeaderRoundTripper
                   {| Base := original.(Transport); Headers := headers |}))
  ∧ (let c := wrapHTTPClient None headers in
     c.(CheckRedirect) = None
     ∧ c.(Jar) = None
     ∧ c.(Timeout) = 0%Z
     ∧ c.(Transport)
       = Some (HeaderRoundTripper {| Base := None; Headers := headers |})).
Proof.
  split_and!.
  - unfold wrapTransportWithHeaders.
    destruct (transport sm) as [e c|e c|id]; [by eexists..|done].
  - intros original. by split_and!.
  - by split_and!.
Qed.

(** ** The pool *)

Section pool.
Context `{Protocol W}.
Implicit Types (r : Run W) (sm : SessionManager) (headers : StringMap).

Lemma calls_during_app r w new :
  calls_during r (mk_Run w (r.(calls) ++ new)) = new.
Proof. unfold calls_during. simpl. by rewrite drop_app_length. Qed.

(** A run of [GetSession] is one or two probes that end in a live stored
    session, or at most two failed probes followed by one [Connect]. *)
Lemma GetSession_outcome key_fn sm ctx headers r :
  let key := key_fn sm headers in
  let wrapped := wrapTransportWithHeaders sm headers in
  ∃ probes w,
    Forall is_probe probes
    ∧ ((∃ entry,
          sm.(sessions) !! key = Some entry
          ∧ last probes = Some (PingCall entry.(session) (pingCtx ctx) None)
          ∧ GetSession key_fn sm ctx headers r
            = (inr entry.(session), sm, mk_Run w (r.(calls) ++ probes)))
       ∨ (∃ res w',
            Connect sm.(client) ctx wrapped w = (res, w')
            ∧ GetSession key_fn sm ctx headers r
              = (match res with
                 | inl err => (inl (Errorf_w "failed to create session: " err), sm)
                 | inr s =>
                     (inr s,
                      set_sessions
                        (<[key := mk_sessionEntry s headers]> sm.(sessions)) sm)
                 end,
                 mk_Run w' (r.(calls) ++ probes
                              ++ [ConnectCall sm.(client) ctx wrapped res])))).
Proof.
  intros key wrapped.
  unfold GetSession, GetSession_locked, connect_and_store, isSessionValid,
    call_Ping, call_Connect, mbind, mret, Go_bind, Go_ret.
  fold key. fold wrapped.
  destruct (sessions sm !! key) as [entry|] eqn:Hlook.
  - destruct (Ping _ _ _) as [[e1|] w1] eqn:Hp1; simpl.
    + destruct (Ping (session entry) _ w1) as [[e2|] w2] eqn:Hp2; simpl.
      * destruct (Connect _ _ _ w2) as [res w3] eqn:Hc.
        exists [PingCall (session entry) (pingCtx ctx) (Some e1);
                PingCall (session entry) (pingCtx ctx) (Some e2)], w2.
        split; [by repeat constructor|]. right.
        exists res, w3. split; [done|].
        rewrite <-!(assoc_L (++)). by destruct res.
      * exists [PingCall (session entry) (pingCtx ctx) (Some e1);
                PingCall (session entry) (pingCtx ctx) None], w2.
        split; [by repeat constructor|]. left.
        exists entry. split_and!; [done..|].
        by rewrite <-!(assoc_L (++)).
    + exists [PingCall (session entry) (pingCtx ctx) None], w1.
      split; [by repeat constructor|]. left.
      exists entry. by split_and!.
  - destruct (Connect _ _ _ _) as [res w3] eqn:Hc.
    exists [], (world r). split; [constructor|]. right.
    exists res, w3. split; [done|]. by destruct res.
Qed.

Lemma ConnectCall_not_probe c ctx t res probes :
  Forall is_probe probes → ConnectCall c ctx t res ∉ probes.
Proof. intros Hall Hin. by apply (proj1 (Forall_forall _ _) Hall) in Hin. Qed.


(** C3.  When the [Connect] call of a [GetSession] fails, [GetSession]
    returns an error that wraps the error of [Connect], and it leaves the
    manager, its sessions map included, exactly as it found it.  This holds
    for every key derivation, so for both revisions. *)
Theorem GetSession_connect_failure key_fn sm ctx headers r res sm' r'
    c cctx t err :
  GetSession key_fn sm ctx headers r = (res, sm', r') →
  ConnectCall c cctx t (inl err) ∈ calls_during r r' →
  res = inl (Errorf_w "failed to create session: " err)
  ∧ (∃ e, res = inl e ∧ Unwrap e = Some err)
  ∧ sm'.(sessions) = sm.(sessions)
  ∧ sm' = sm.
Proof.
  intros Hrun Hin.
  destruct (GetSession_outcome key_fn sm ctx headers r)
    as (probes & w & Hprobes & [(entry & _ & _ & Hret) | (res0 & w' & _ & Hret)]);
    rewrite Hret in Hrun.
  - injection Hrun as <- <- <-. rewrite calls_during_app in Hin.
    by apply ConnectCall_not_probe in Hin.
  - assert (res0 = inl err) as ->.
    { destruct res0; injection Hrun as <- <- <-;
        rewrite calls_during_app in Hin;
        (apply elem_of_app in Hin as [Hin | Hin];
          [by apply ConnectCall_not_probe in Hin|]);
        apply list_elem_of_singleton in Hin; congruence. }
    injection Hrun as <- <- <-. split_and!; [done | by eexists | done | done].
Qed.


(** A successful [GetSession] leaves its result stored under the key. *)
Lemma GetSession_stored key_fn sm ctx headers r s sm1 r1 :
  GetSession key_fn sm ctx headers r = (inr s, sm1, r1) →
  sm1.(client) = sm.(client) ∧ sm1.(transport) = sm.(transport)
  ∧ ∃ entry, sm1.(sessions) !! key_fn sm headers = Some entry
             ∧ entry.(session) = s.
Proof.
  intros Hrun.
  destruct (GetSession_outcome key_fn sm ctx headers r)
    as (probes & w & _ & [(entry & Hlook & _ & Hret) | (res & w' & _ & Hret)]);
    rewrite Hret in Hrun.
  - injection Hrun as <- <- <-. eauto.
  - destruct res as [err|s']; [discriminate|]. injection Hrun as <- <- <-.
    split_and!; [done..|]. eexists. simpl. by rewrite lookup_insert_eq.
Qed.

(** A stored session that answers the probe is returned after that one
    probe. *)
Lemma GetSession_live key_fn sm ctx headers r entry w :
  sm.(sessions) !! key_fn sm headers = Some entry →
  Ping entry.(session) (pingCtx ctx) r.(world) = (None, w) →
  GetSession key_fn sm ctx headers r
  = (inr entry.(session), sm,
     mk_Run w (r.(calls) ++ [PingCall entry.(session) (pingCtx ctx) None])).
Proof.
  intros Hlook Hping.
  unfold GetSession, isSessionValid, call_Ping, mbind, mret, Go_bind, Go_ret.
  by rewrite Hlook, Hping.
Qed.

End pool.

(** C7.  After a [GetSession] with headers [headers] has succeeded with
    session [s], a second [GetSession] with the same headers, made while
    [s] still answers the liveness probe, returns [s] again, leaves the
    manager as it is, and makes one call into the SDK, the probe: it does
    not call [Connect]. *)
Theorem GetSession_reuse `{GoLib} `{Protocol W}
    (sm : SessionManager) (ctx : Ctx) (headers : StringMap) (r : Run W)
    (s : ClientSession) (sm1 : SessionManager) (r1 : Run W)
    (ctx2 : Ctx) (r2 : Run W) (w2 : W) :
  GetSession Exported.generateSessionKey sm ctx headers r = (inr s, sm1, r1) →
  Ping s (pingCtx ctx2) r2.(world) = (None, w2) →
  ∃ r2',
    GetSession Exported.generateSessionKey sm1 ctx2 headers r2 = (inr s, sm1, r2')
    ∧ calls_during r2 r2' = [PingCall s (pingCtx ctx2) None]
    ∧ ∀ c cctx t res, ConnectCall c cctx t res ∉ calls_during r2 r2'.
Proof.
  intros Hfirst Hping.
  apply GetSession_stored in Hfirst as (_ & _ & entry & Hlook & <-).
  eexists. split; [|split].
  - by apply (GetSession_live Exported.generateSessionKey sm1 ctx2 headers r2 entry w2).
  - apply calls_during_app.
  - intros c cctx t res. rewrite calls_during_app.
    by intros ?%list_elem_of_singleton.
Qed.

Lemma GetSession_reuse_witness :
  let first := ConnectCall 0 Background (OtherTransport 0) (inr 7) in
  let r1 := mk_Run (mk_Peer 8 false [] []) [first] in
  let sm1 :=
    set_sessions
      {[ @Exported.generateSessionKey go_stdlib stdio_manager bearer
         := mk_sessionEntry 7 bearer ]} stdio_manager in
  GetSession (@Exported.generateSessionKey go_stdlib) stdio_manager Background
    bearer (mk_Run willing_peer []) = (inr 7, sm1, r1)
  ∧ Ping 7 (pingCtx Background) r1.(world) = (None, r1.(world))
  ∧ ∃ r2',
      GetSession (@Exported.generateSessionKey go_stdlib) sm1 Background bearer r1
      = (inr 7, sm1, r2')
      ∧ calls_during r1 r2' = [PingCall 7 (pingCtx Background) None]
      ∧ ∀ c cctx t res, ConnectCall c cctx t res ∉ calls_during r1 r2'.
Proof.
  intros first r1 sm1.
  assert (GetSession (@Exported.generateSessionKey go_stdlib) stdio_manager
            Background bearer (mk_Run willing_peer []) = (inr 7, sm1, r1))
    as Hfirst by (vm_compute; reflexivity).
  assert (Ping 7 (pingCtx Background) r1.(world) = (None, r1.(world)))
    as Hping by (vm_compute; reflexivity).
  split; [exact Hfirst|]. split; [exact Hping|].
  exact (GetSession_reuse _ _ _ _ _ _ _ _ _ _ Hfirst Hping).
Defined.

Lemma GetSession_connect_failure_witness :
  let refused := ExternalError "connection refused" in
  let call := ConnectCall 0 Background (OtherTransport 0) (inl refused) in
  let r := mk_Run refusing_peer [] in
  let r' := mk_Run refusing_peer [call] in
  let res := inl (Errorf_w "failed to create session: " refused) in
  GetSession (@Exported.generateSessionKey go_stdlib) stdio_manager Background
    bearer r = (res, stdio_manager, r')
  ∧ call ∈ calls_during r r'
  ∧ res = inl (Errorf_w "failed to create session: " refused)
  ∧ (∃ e, res = inl e ∧ Unwrap e = Some refused)
  ∧ sessions stdio_manager = sessions stdio_manager
  ∧ stdio_manager = stdio_manager.
Proof.
  intros refused call r r' res.
  assert (GetSession (@Exported.generateSessionKey go_stdlib) stdio_manager
            Background bearer r = (res, stdio_manager, r')) as Hrun
    by (vm_compute; reflexivity).
  assert (call ∈ calls_during r r') as Hin by (vm_compute; constructor).
  split; [exact Hrun|]. split; [exact Hin|].
  exact (GetSession_connect_failure _ _ _ _ _ _ _ _ _ _ _ _ Hrun Hin).
Defined.

(** ** Close *)

Section close.
Context `{Protocol W}.
Implicit Types (r : Run W) (sm : SessionManager).

(** The loop makes one [Close] call per entry, in order, whatever the
    answers are, and appends the errors among the answers. *)
Lemma close_entries_run entries errs r :
  ∃ answers w,
    length answers = length entries
    ∧ close_entries entries errs r
      = (errs ++ omap id answers,
         mk_Run w (r.(calls) ++ zip_with close_call entries answers)).
Proof.
  revert errs r. induction entries as [|[k entry] entries IH]; intros errs r.
  - exists [], (world r). split; [done|]. simpl.
    rewrite !app_nil_r. by destruct r.
  - simpl. unfold mbind, Go_bind, call_Close.
    destruct (Session_Close (session entry) (world r)) as [a w1] eqn:Hclose.
    destruct a as [err|].
    + destruct (IH (errs ++ [err]) (mk_Run w1 (calls r ++ [CloseCall (session entry) (Some err)])))
        as (answers & w & Hlen & ->).
      exists (Some err :: answers), w. split; [simpl; by rewrite Hlen|].
      simpl. by rewrite <-!(assoc_L (++)).
    + destruct (IH errs (mk_Run w1 (calls r ++ [CloseCall (session entry) None])))
        as (answers & w & Hlen & ->).
      exists (None :: answers), w. split; [simpl; by rewrite Hlen|].
      simpl. by rewrite <-!(assoc_L (++)).
Qed.

(** C4.  [Close] calls [Close] on every stored session, one call per entry
    and in the order the map yields them, whatever the earlier calls
    answered.  It returns no error when no call failed and otherwise one
    error built from all the failures, in order.  In both cases it leaves
    the manager with an empty sessions map, equal to a newly built manager
    for the same client and transport; so a later [GetSession] runs as on
    a fresh pool, and when its [Connect] succeeds it returns the new
    session and stores it. *)
Theorem Close_closes_every_session key_fn sm entries r res sm' r' :
  range_sessions sm entries →
  Close_in entries sm r = (res, sm', r') →
  (∃ answers,
      length answers = length entries
      ∧ calls_during r r'
        = zip_with (λ e a, CloseCall e.2.(session) a) entries answers
      ∧ res = match omap id answers with
              | [] => None
              | errs => Some (Errorf_v "errors closing sessions: " errs)
              end)
  ∧ (∀ k entry, sm.(sessions) !! k = Some entry →
       ∃ a, CloseCall entry.(session) a ∈ calls_during r r')
  ∧ sm'.(sessions) = ∅
  ∧ sm' = NewSessionManager sm.(client) sm.(transport)
  ∧ GetSession key_fn sm'
    = GetSession key_fn (NewSessionManager sm.(client) sm.(transport))
  ∧ (∀ ctx headers (r2 : Run W) s w,
       Connect sm'.(client) ctx (wrapTransportWithHeaders sm' headers) r2.(world)
       = (inr s, w) →
       GetSession key_fn sm' ctx headers r2
       = (inr s,
          set_sessions {[ key_fn sm' headers := mk_sessionEntry s headers ]} sm',
          mk_Run w (r2.(calls)
                      ++ [ConnectCall sm'.(client) ctx
                            (wrapTransportWithHeaders sm' headers) (inr s)]))).
Proof.
  intros Hrange Hrun. unfold Close_in, mbind, Go_bind in Hrun.
  destruct (close_entries_run entries [] r) as (answers & w & Hlen & Hloop).
  rewrite Hloop in Hrun. simpl in Hrun.
  assert (res = match omap id answers with
                | [] => None
                | errs => Some (Errorf_v "errors closing sessions: " errs)
                end
          ∧ sm' = set_sessions ∅ sm
          ∧ r' = mk_Run w (calls r ++ zip_with close_call entries answers))
    as (-> & -> & ->).
  { destruct (omap id answers) as [|e errs]; simpl in Hrun;
      unfold mret, Go_ret in Hrun; by injection Hrun as <- <- <-. }
  rewrite calls_during_app.
  split_and!; try done.
  - by exists answers.
  - intros k entry Hlook.
    assert ((k, entry) ∈ entries) as Hin.
    { rewrite Hrange. by apply elem_of_map_to_list. }
    apply list_elem_of_lookup in Hin as [i Hi].
    destruct (lookup_lt_is_Some_2 answers i) as [a Ha].
    { rewrite Hlen. by eapply lookup_lt_Some. }
    exists a. apply list_elem_of_lookup. exists i.
    rewrite lookup_zip_with, Hi. simpl. by rewrite Ha.
  - intros ctx headers r2 s w2 Hconnect.
    unfold GetSession, GetSession_locked, connect_and_store, call_Connect,
      mbind, mret, Go_bind, Go_ret.
    simpl in *. rewrite lookup_empty, Hconnect. simpl.
    by rewrite insert_empty.
Qed.

End close.

Lemma Close_closes_every_session_witness :
  let entries := [("k", mk_sessionEntry 2 bearer);
                  ("default", mk_sessionEntry 1 None)] in
  let failed := ExternalError "close failed" in
  let r' := mk_Run (mk_Peer 3 false [1; 2] [1; 2])
              [CloseCall 2 (Some failed); CloseCall 1 (Some failed)] in
  range_sessions two_sessions entries
  ∧ Close_in entries two_sessions (mk_Run failing_peer [])
    = (Some (Errorf_v "errors closing sessions: " [failed; failed]),
       stdio_manager, r')
  ∧ (∀ k entry, two_sessions.(sessions) !! k = Some entry →
       ∃ a, CloseCall entry.(session) a
            ∈ calls_during (mk_Run failing_peer []) r')
  ∧ stdio_manager.(sessions) = ∅.
Proof.
  intros entries failed r'.
  assert (range_sessions two_sessions entries) as Hrange
    by (unfold range_sessions; vm_compute;
        first [reflexivity | apply perm_swap]).
  assert (Close_in entries two_sessions (mk_Run failing_peer [])
          = (Some (Errorf_v "errors closing sessions: " [failed; failed]),
             stdio_manager, r')) as Hrun
    by (vm_compute; reflexivity).
  split; [exact Hrange|]. split; [exact Hrun|].
  destruct (Close_closes_every_session
              (@Exported.generateSessionKey go_stdlib)
              _ _ _ _ _ _ Hrange Hrun) as (_ & Hall & Hempty & _).
  split; [exact Hall | exact Hempty].
Defined.

(** ** The header-injecting round-tripper *)

Section round_trip.
Implicit Types (h : http_Header) (pairs : list (string * string)) (σ : Heap).

Lemma set_all_allocated pairs l σ h :
  σ !! l = Some h → set_all pairs l σ = Some (<[l := set_pairs h pairs]> σ).
Proof.
  revert σ h. induction pairs as [|[k v] pairs IH]; intros σ h Hl; simpl.
  - by rewrite insert_id.
  - rewrite Hl. rewrite (IH _ (Header_Set h k v)) by apply lookup_insert_eq.
    by rewrite insert_insert_eq.
Qed.

(** A canonical name that no pair of the loop maps to keeps its values. *)
Lemma set_pairs_other h pairs c :
  (∀ p, p ∈ pairs → CanonicalMIMEHeaderKey p.1 ≠ c) →
  set_pairs h pairs !! c = h !! c.
Proof.
  revert h. induction pairs as [|p pairs IH]; intros h Hc; simpl; [done|].
  rewrite IH by (intros q Hq; apply Hc; by right).
  unfold Header_Set. apply lookup_insert_ne, Hc. by left.
Qed.

(** Under a canonical name that some pair maps to, the table ends with
    the single value of one such pair (the last one the loop met). *)
Lemma set_pairs_written h pairs c :
  (∃ p, p ∈ pairs ∧ CanonicalMIMEHeaderKey p.1 = c) →
  ∃ p, p ∈ pairs ∧ CanonicalMIMEHeaderKey p.1 = c
       ∧ set_pairs h pairs !! c = Some [p.2].
Proof.
  revert h. induction pairs as [|p pairs IH]; intros h (q & Hq & Hc).
  { by apply not_elem_of_nil in Hq. }
  simpl.
  destruct (decide (Exists (λ q, CanonicalMIMEHeaderKey q.1 = c) pairs))
    as [Hlater | Hlast].
  - apply Exists_exists in Hlater.
    destruct (IH (Header_Set h p.1 p.2) Hlater) as (p' & Hp' & Hc' & Hset).
    exists p'. split_and!; [by right | done | done].
  - assert (q = p) as ->.
    { apply elem_of_cons in Hq as [-> | Hq]; [done|].
      destruct Hlast. apply Exists_exists. eauto. }
    exists p. split_and!; [by left | done |].
    rewrite set_pairs_other.
    + unfold Header_Set. rewrite Hc. apply lookup_insert_eq.
    + intros q Hq' Hqc. apply Hlast, Exists_exists. eauto.
Qed.

Lemma Header_Get_single h key v :
  h !! CanonicalMIMEHeaderKey key = Some [v] → Header_Get h key = v.
Proof. unfold Header_Get. by intros ->. Qed.

Lemma range_pairs_elem_of headers pairs k v :
  range_pairs headers pairs →
  (k, v) ∈ pairs ↔ entries headers !! k = Some v.
Proof. intros ->. apply elem_of_map_to_list. Qed.

Lemma range_pairs_empty headers pairs :
  range_pairs headers pairs → len headers = 0 → pairs = [].
Proof.
  unfold range_pairs, len. intros Hp Hlen.
  apply map_size_empty_iff in Hlen. rewrite Hlen, map_to_list_empty in Hp.
  by apply Permutation_nil_r in Hp.
Qed.

End round_trip.

(** What [RoundTrip] does when the header map of the request is allocated:
    it always reaches the call of the base round-tripper, and the deferred
    function never closes the body. *)
Lemma RoundTrip_in_allocated pairs (t : headerTransport) req σ hdr :
  σ !! req.(Header) = Some hdr →
  Exported.RoundTrip_in pairs t req σ
  = Some (if decide (len t.(Headers) = 0)
          then mk_Forward (base t) req σ false
          else mk_Forward (base t)
                 (mk_Request req.(Method) req.(URL) (fresh (dom σ)) req.(Body)
                    req.(req_Context))
                 (<[fresh (dom σ) := set_pairs hdr pairs]> σ) false).
Proof.
  intros Hhdr. unfold Exported.RoundTrip_in, Exported.deferred.
  case_decide; [by destruct (Body req)|].
  unfold Clone. rewrite Hhdr. simpl.
  rewrite (set_all_allocated pairs _ _ hdr) by apply lookup_insert_eq.
  simpl. rewrite insert_insert_eq. by destruct (Body req).
Qed.

(** The revision without the guard makes the same call. *)
Lemma RoundTrip_in_revisions pairs (t : headerTransport) req σ hdr :
  σ !! req.(Header) = Some hdr →
  Internal.RoundTrip_in pairs t req σ = Exported.RoundTrip_in pairs t req σ.
Proof.
  intros Hhdr. rewrite (RoundTrip_in_allocated _ _ _ _ hdr Hhdr).
  unfold Internal.RoundTrip_in. case_decide; [done|].
  unfold Clone. rewrite Hhdr. simpl.
  rewrite (set_all_allocated pairs _ _ hdr) by apply lookup_insert_eq.
  simpl. by rewrite insert_insert_eq.
Qed.

(** C8, as the code has it.  For a request whose header map is allocated
    (net/http hands no other to a round-tripper) and every order in which
    the configured map yields its pairs: with no header configured the
    request itself goes to the base round-tripper and nothing is written;
    otherwise a clone goes there, equal to the request except for a header
    map of its own, and the map of the request is left as it was.  In the
    header of the clone, under the canonical form of each configured name
    stands the single value of a configured name with that canonical form:
    the value configured for the name itself when no other configured name
    shares the canonical form.  Every other entry is as in the request. *)
Theorem RoundTrip_forwards pairs (t : headerTransport) req σ hdr :
  range_pairs t.(Headers) pairs →
  σ !! req.(Header) = Some hdr →
  ∃ fwd,
    Exported.RoundTrip_in pairs t req σ = Some fwd
    ∧ fwd.(next) = base t
    ∧ fwd.(closes_body) = false
    ∧ (len t.(Headers) = 0 → fwd.(outgoing) = req ∧ fwd.(heap) = σ)
    ∧ (len t.(Headers) ≠ 0 →
       ∃ hdr',
         fwd.(outgoing)
         = mk_Request req.(Method) req.(URL) (fresh (dom σ)) req.(Body)
             req.(req_Context)
         ∧ σ !! fwd.(outgoing).(Header) = None
         ∧ fwd.(heap) = <[fwd.(outgoing).(Header) := hdr']> σ
         ∧ fwd.(heap) !! req.(Header) = Some hdr
         ∧ (∀ k v, entries t.(Headers) !! k = Some v →
              ∃ k' v',
                entries t.(Headers) !! k' = Some v'
                ∧ CanonicalMIMEHeaderKey k' = CanonicalMIMEHeaderKey k
                ∧ hdr' !! CanonicalMIMEHeaderKey k = Some [v']
                ∧ Header_Get hdr' k = v')
         ∧ (∀ k v, entries t.(Headers) !! k = Some v →
              (∀ k', is_Some (entries t.(Headers) !! k') →
                 CanonicalMIMEHeaderKey k' = CanonicalMIMEHeaderKey k → k' = k) →
              hdr' !! CanonicalMIMEHeaderKey k = Some [v]
              ∧ Header_Get hdr' k = v)
         ∧ (∀ c, (∀ k, is_Some (entries t.(Headers) !! k) →
                    CanonicalMIMEHeaderKey k ≠ c) →
              hdr' !! c = hdr !! c)).
Proof.
  intros Hrange Hhdr. eexists. split; [by apply RoundTrip_in_allocated|].
  assert (σ !! fresh (dom σ) = None) as Hfresh.
  { apply not_elem_of_dom, is_fresh. }
  assert (∀ k v, entries t.(Headers) !! k = Some v →
            ∃ k' v', entries t.(Headers) !! k' = Some v'
              ∧ CanonicalMIMEHeaderKey k' = CanonicalMIMEHeaderKey k
              ∧ set_pairs hdr pairs !! CanonicalMIMEHeaderKey k = Some [v'])
    as Hwritten.
  { intros k v Hk.
    destruct (set_pairs_written hdr pairs (CanonicalMIMEHeaderKey k))
      as ([k' v'] & Hin & Hc & Hset).
    { exists (k, v). split; [|done]. by apply (range_pairs_elem_of t.(Headers)). }
    exists k', v'. split_and!; [|done..].
    by apply (range_pairs_elem_of t.(Headers) pairs). }
  case_decide as Hlen; simpl; (split; [done|]); (split; [done|]);
    (split; [done|]); [done|].
  intros _. exists (set_pairs hdr pairs). split_and!; try done.
  - rewrite lookup_insert_ne; [done|]. intros Heq. congruence.
  - intros k v Hk. destruct (Hwritten k v Hk) as (k' & v' & ? & ? & Hset).
    exists k', v'. split_and!; [done..|]. by apply Header_Get_single.
  - intros k v Hk Hunique.
    destruct (Hwritten k v Hk) as (k' & v' & Hk' & Hc & Hset).
    assert (k' = k) as -> by (by apply Hunique).
    assert (v' = v) as -> by congruence.
    split; [done|]. by apply Header_Get_single.
  - intros c Hc. apply set_pairs_other. intros [k v] Hin.
    apply (range_pairs_elem_of t.(Headers)) in Hin; [|done].
    simpl. by apply Hc.
Qed.

Lemma RoundTrip_forwards_witness :
  let t := mk_headerTransport (Some (OtherRoundTripper 1)) bearer in
  let σ : Heap := {[ 0 := {[ "Authorization" := ["Basic old"] ]} ]} in
  range_pairs t.(Headers) [("Authorization", "Bearer t")]
  ∧ σ !! plain_request.(Header) = Some {[ "Authorization" := ["Basic old"] ]}
  ∧ ∃ fwd,
      Exported.RoundTrip_in [("Authorization", "Bearer t")] t plain_request σ
      = Some fwd
      ∧ fwd.(next) = base t
      ∧ fwd.(closes_body) = false.
Proof.
  intros t σ.
  assert (range_pairs t.(Headers) [("Authorization", "Bearer t")]) as Hrange
    by (unfold range_pairs; vm_compute; reflexivity).
  assert (σ !! plain_request.(Header)
          = Some {[ "Authorization" := ["Basic old"] ]}) as Hhdr
    by (vm_compute; reflexivity).
  split; [exact Hrange|]. split; [exact Hhdr|].
  destruct (RoundTrip_forwards _ t plain_request σ _ Hrange Hhdr)
    as (fwd & Hrun & Hnext & Hbody & _).
  exists fwd. by split_and!.
Defined.

(** The scenario of the specification: the configured [Authorization]
    replaces the one of the caller in the clone, and the request of the
    caller keeps its own. *)
Example RoundTrip_authorization :
  Exported.RoundTrip_in [("Authorization", "Bearer t")]
    (mk_headerTransport (Some (OtherRoundTripper 1)) bearer) plain_request
    {[ 0 := {[ "Authorization" := ["Basic old"] ]} ]}
  = Some {| next := OtherRoundTripper 1;
            outgoing := {| Method := "GET"; URL := "http://localhost/mcp";
                           Header := 1; Body := None;
                           req_Context := Background |};
            heap := <[ 1 := {[ "Authorization" := ["Bearer t"] ]} ]>
                      {[ 0 := {[ "Authorization" := ["Basic old"] ]} ]};
            closes_body := false |}.
Proof. vm_compute. reflexivity. Qed.

Example RoundTrip_no_headers :
  Exported.RoundTrip_in [] (mk_headerTransport None (Some ∅)) plain_request
    {[ 0 := {[ "Authorization" := ["Basic old"] ]} ]}
  = Some {| next := DefaultTransport; outgoing := plain_request;
            heap := {[ 0 := {[ "Authorization" := ["Basic old"] ]} ]};
            closes_body := false |}.
Proof. vm_compute. reflexivity. Qed.

(** C8 as the specification words it fails when two configured names have
    the same canonical form: both pairs are written under one key and the
    pair written first is lost.  With ["x-a"] and ["X-A"] configured, the
    clone carries ["X-A": "2"] when the map yields ["x-a"] first and
    ["X-A": "1"] when it yields ["X-A"] first, so neither order gives a
    request that has every configured pair. *)
Lemma RoundTrip_colliding_names :
  (∃ fwd,
     Exported.RoundTrip_in [("x-a", "1"); ("X-A", "2")]
       (mk_headerTransport None colliding) plain_request {[ 0 := ∅ ]}
     = Some fwd
     ∧ fwd.(heap) !! fwd.(outgoing).(Header) = Some {[ "X-A" := ["2"] ]}
     ∧ Header_Get {[ "X-A" := ["2"] ]} "x-a" = "2")
  ∧ (∃ fwd,
       Exported.RoundTrip_in [("X-A", "2"); ("x-a", "1")]
         (mk_headerTransport None colliding) plain_request {[ 0 := ∅ ]}
       = Some fwd
       ∧ fwd.(heap) !! fwd.(outgoing).(Header) = Some {[ "X-A" := ["1"] ]}
       ∧ Header_Get {[ "X-A" := ["1"] ]} "X-A" = "1")
  ∧ ¬ (∀ pairs (t : headerTransport) req σ hdr fwd hdr',
         range_pairs t.(Headers) pairs →
         σ !! req.(Header) = Some hdr →
         len t.(Headers) ≠ 0 →
         Exported.RoundTrip_in pairs t req σ = Some fwd →
         fwd.(heap) !! fwd.(outgoing).(Header) = Some hdr' →
         ∀ k v, entries t.(Headers) !! k = Some v → Header_Get hdr' k = v).
Proof.
  split_and!.
  - eexists. split; [vm_compute; reflexivity|]. by vm_compute.
  - eexists. split; [vm_compute; reflexivity|]. by vm_compute.
  - intros Hclaim.
    assert (Header_Get {[ "X-A" := ["2"] ]} "x-a" = "1") as Hget.
    { eapply (Hclaim [("x-a", "1"); ("X-A", "2")]
                (mk_headerTransport None colliding) plain_request {[ 0 := ∅ ]}
                ∅ _ _).
      - unfold range_pairs. vm_compute. first [reflexivity | apply perm_swap].
      - by vm_compute.
      - by vm_compute.
      - vm_compute. reflexivity.
      - by vm_compute.
      - by vm_compute. }
    vm_compute in Hget. discriminate.
Qed.

(** ** Further properties of the pool *)

Section pool_more.
Context `{Protocol W}.
Implicit Types (r : Run W) (sm : SessionManager) (headers : StringMap).

(** [GetSession] never removes an entry: it leaves the sessions map as it
    is, or it writes the entry of a newly connected session under the
    derived key.  Client and transport are never assigned. *)
Lemma GetSession_keeps_entries key_fn sm ctx headers r :
  let '(res, sm', _) := GetSession key_fn sm ctx headers r in
  sm'.(client) = sm.(client)
  ∧ sm'.(transport) = sm.(transport)
  ∧ (sm'.(sessions) = sm.(sessions)
     ∨ ∃ s, res = inr s
            ∧ sm'.(sessions)
              = <[key_fn sm headers := mk_sessionEntry s headers]> sm.(sessions))
  ∧ ∀ k, is_Some (sm.(sessions) !! k) → is_Some (sm'.(sessions) !! k).
Proof.
  destruct (GetSession_outcome key_fn sm ctx headers r)
    as (probes & w & _ & [(entry & _ & _ & ->) | (res & w' & _ & ->)]).
  - split_and!; [done | done | by left | done].
  - destruct res as [err|s]; simpl.
    + split_and!; [done | done | by left | done].
    + split_and!; [done | done | right; by exists s |].
      intros k Hk. rewrite lookup_insert. by case_decide.
Qed.

(** A stored session that fails both probes is replaced: [GetSession]
    connects once, returns the new session and stores it under the same
    key in place of the dead one. *)
Lemma GetSession_replaces_dead_session key_fn sm ctx headers r
    entry e1 w1 e2 w2 s w3 :
  sm.(sessions) !! key_fn sm headers = Some entry →
  Ping entry.(session) (pingCtx ctx) r.(world) = (Some e1, w1) →
  Ping entry.(session) (pingCtx ctx) w1 = (Some e2, w2) →
  Connect sm.(client) ctx (wrapTransportWithHeaders sm headers) w2 = (inr s, w3) →
  ∃ sm' r',
    GetSession key_fn sm ctx headers r = (inr s, sm', r')
    ∧ sm'.(sessions) !! key_fn sm headers = Some (mk_sessionEntry s headers)
    ∧ (∀ k, k ≠ key_fn sm headers → sm'.(sessions) !! k = sm.(sessions) !! k)
    ∧ calls_during r r'
      = [PingCall entry.(session) (pingCtx ctx) (Some e1);
         PingCall entry.(session) (pingCtx ctx) (Some e2);
         ConnectCall sm.(client) ctx (wrapTransportWithHeaders sm headers) (inr s)].
Proof.
  intros Hlook Hp1 Hp2 Hc. eexists _, _. split.
  - unfold GetSession, GetSession_locked, connect_and_store, isSessionValid,
      call_Ping, call_Connect, mbind, mret, Go_bind, Go_ret.
    rewrite Hlook, Hp1. simpl. rewrite Hp2. simpl. rewrite Hc. reflexivity.
  - split_and!.
    + simpl. apply lookup_insert_eq.
    + intros k Hk. simpl. by apply lookup_insert_ne.
    + unfold calls_during. simpl. rewrite <-!(assoc_L (++)).
      by rewrite drop_app_length.
Qed.

(** A [nil] session is not valid, and no call is made to find that out.
    The probe of a session is valid exactly when [Ping] returns no error;
    it runs under the context of the caller when that has a deadline and
    under a two-second timeout otherwise. *)
Lemma isSessionValid_probe sm ctx s r :
  isSessionValid sm ctx None r = (false, r)
  ∧ isSessionValid sm ctx (Some s) r
    = (let '(err, w) := Ping s (pingCtx ctx) r.(world) in
       (if err is None then true else false,
        mk_Run w (r.(calls) ++ [PingCall s (pingCtx ctx) err])))
  ∧ pingCtx ctx
    = (if hasDeadline ctx then ctx else WithTimeout ctx 2000000000).
Proof.
  split_and!.
  - reflexivity.
  - unfold isSessionValid, call_Ping, mbind, mret, Go_bind, Go_ret.
    by destruct (Ping s (pingCtx ctx) (world r)) as [[err|] w].
  - unfold pingCtx. by destruct (hasDeadline ctx).
Qed.

End pool_more.

Lemma GetSession_replaces_dead_session_witness :
  let key := @Exported.generateSessionKey go_stdlib stdio_manager bearer in
  let gone := Some (ExternalError "connection closed") in
  ∃ sm' r',
    GetSession (@Exported.generateSessionKey go_stdlib) one_session Background
      bearer (mk_Run peer_after_death []) = (inr 8, sm', r')
    ∧ sm'.(sessions) !! key = Some (mk_sessionEntry 8 bearer)
    ∧ (∀ k, k ≠ key → sm'.(sessions) !! k = one_session.(sessions) !! k)
    ∧ calls_during (mk_Run peer_after_death []) r'
      = [PingCall 7 (pingCtx Background) gone;
         PingCall 7 (pingCtx Background) gone;
         ConnectCall 0 Background (OtherTransport 0) (inr 8)].
Proof.
  intros key gone.
  apply (GetSession_replaces_dead_session (W := Peer)
           (@Exported.generateSessionKey go_stdlib) one_session Background
           bearer (mk_Run peer_after_death []) (mk_sessionEntry 7 bearer)
           (ExternalError "connection closed") peer_after_death
           (ExternalError "connection closed") peer_after_death
           8 (mk_Peer 9 false [7] [])); vm_compute; reflexivity.
Defined.

Lemma RoundTrip_in_revisions_witness :
  Internal.RoundTrip_in [("Authorization", "Bearer t")]
    (mk_headerTransport None bearer) plain_request {[ 0 := ∅ ]}
  = Exported.RoundTrip_in [("Authorization", "Bearer t")]
      (mk_headerTransport None bearer) plain_request {[ 0 := ∅ ]}.
Proof.
  apply (RoundTrip_in_revisions _ _ plain_request {[ 0 := ∅ ]} ∅).
  vm_compute. reflexivity.
Defined.

Lemma generateSessionKey_in_order_witness :
  @Exported.generateSessionKey_in go_stdlib ["b"; "a"] stdio_manager
    (Some (<["a" := "1"]> {[ "b" := "2" ]}))
  = @Exported.generateSessionKey go_stdlib stdio_manager
      (Some (<["a" := "1"]> {[ "b" := "2" ]}))
  ∧ @Internal.generateSessionKey_in go_stdlib ["b"; "a"] stdio_manager
      (Some (<["a" := "1"]> {[ "b" := "2" ]}))
    = @Internal.generateSessionKey go_stdlib stdio_manager
        (Some (<["a" := "1"]> {[ "b" := "2" ]})).
Proof.
  apply (@generateSessionKey_in_order go_stdlib).
  unfold range_keys. vm_compute. first [reflexivity | apply perm_swap].
Defined.

(** ** What a call of the pool does to the SDK and to the map *)

Section pool_calls.
Context `{Protocol W}.
Implicit Types (r : Run W) (sm : SessionManager) (headers : StringMap).

(** The probe never runs without a deadline. *)
Lemma pingCtx_hasDeadline ctx : hasDeadline (pingCtx ctx) = true.
Proof. unfold pingCtx. by destruct (hasDeadline ctx) eqn:Hd. Qed.

(** One [GetSession] makes at most two probes, both of the session stored
    under the key and both under a context with a deadline, then at most
    one [Connect], on the client of the manager, under the context of the
    caller and over the transport bound to the headers of the call.  It
    makes no other call; with no entry under the key it does not probe. *)
Lemma GetSession_call_budget key_fn sm ctx headers r :
  let wrapped := wrapTransportWithHeaders sm headers in
  ∃ probes connects,
    calls_during r (GetSession key_fn sm ctx headers r).2 = probes ++ connects
    ∧ (length probes ≤ 2)%nat
    ∧ (length connects ≤ 1)%nat
    ∧ (∀ c, c ∈ probes →
         ∃ entry res,
           sm.(sessions) !! key_fn sm headers = Some entry
           ∧ c = PingCall entry.(session) (pingCtx ctx) res
           ∧ hasDeadline (pingCtx ctx) = true)
    ∧ (∀ c, c ∈ connects →
         ∃ res, c = ConnectCall sm.(client) ctx wrapped res
                ∧ Forall (λ p, ∃ s pc e, p = PingCall s pc (Some e)) probes).
Proof.
  intros wrapped.
  unfold GetSession, GetSession_locked, connect_and_store, isSessionValid,
    call_Ping, call_Connect, mbind, mret, Go_bind, Go_ret.
  fold wrapped.
  pose proof (pingCtx_hasDeadline ctx) as Hdl.
  destruct (sessions sm !! key_fn sm headers) as [entry|] eqn:Hlook.
  - destruct (Ping _ _ _) as [[e1|] w1] eqn:Hp1; simpl.
    + destruct (Ping (session entry) _ w1) as [[e2|] w2] eqn:Hp2; simpl.
      * destruct (Connect _ _ _ w2) as [res w3] eqn:Hc.
        exists [PingCall (session entry) (pingCtx ctx) (Some e1);
                PingCall (session entry) (pingCtx ctx) (Some e2)],
               [ConnectCall (client sm) ctx wrapped res].
        split_and!.
        -- destruct res; simpl; rewrite <-!(assoc_L (++));
             apply calls_during_app.
        -- simpl. lia.
        -- simpl. lia.
        -- intros c Hc'. set_unfold in Hc'.
           destruct Hc' as [-> | [-> | []]]; eauto.
        -- intros c ->%list_elem_of_singleton. exists res. split; [done|].
           repeat constructor; eauto.
      * exists [PingCall (session entry) (pingCtx ctx) (Some e1);
                PingCall (session entry) (pingCtx ctx) None], [].
        split_and!.
        -- simpl. rewrite <-!(assoc_L (++)). apply calls_during_app.
        -- simpl. lia.
        -- simpl. lia.
        -- intros c Hc'. set_unfold in Hc'.
           destruct Hc' as [-> | [-> | []]]; eauto.
        -- by intros c ?%not_elem_of_nil.
    + exists [PingCall (session entry) (pingCtx ctx) None], [].
      split_and!.
      * simpl. apply calls_during_app.
      * simpl. lia.
      * simpl. lia.
      * intros c ->%list_elem_of_singleton. eauto.
      * by intros c ?%not_elem_of_nil.
  - destruct (Connect _ _ _ _) as [res w3] eqn:Hc.
    exists [], [ConnectCall (client sm) ctx wrapped res].
    split_and!.
    + destruct res; simpl; apply calls_during_app.
    + simpl. lia.
    + simpl. lia.
    + by intros c ?%not_elem_of_nil.
    + intros c ->%list_elem_of_singleton. exists res. split; [done|].
      constructor.
Qed.

End pool_calls.

Section pool_laws.
Context `{GoLib} `{Protocol W}.
Implicit Types (r : Run W) (sm : SessionManager) (headers : StringMap).

(** Both key derivations read nothing of the manager but its transport. *)
Lemma generateSessionKey_transport key_fn sm1 sm2 headers :
  key_fn = Exported.generateSessionKey ∨ key_fn = Internal.generateSessionKey →
  sm1.(transport) = sm2.(transport) →
  key_fn sm1 headers = key_fn sm2 headers.
Proof.
  intros [-> | ->] Ht; [done|].
  unfold Internal.generateSessionKey, Internal.generateSessionKey_in,
    Internal.headersAffectSession. by rewrite Ht.
Qed.

(** A run of [Close], in terms of the answers of the sessions. *)
Lemma Close_in_run entries sm r :
  ∃ answers w,
    length answers = length entries
    ∧ Close_in entries sm r
      = (match omap id answers with
         | [] => None
         | errs => Some (Errorf_v "errors closing sessions: " errs)
         end,
         set_sessions ∅ sm,
         mk_Run w (r.(calls) ++ zip_with close_call entries answers)).
Proof.
  unfold Close_in, mbind, Go_bind.
  destruct (close_entries_run entries [] r) as (answers & w & Hlen & ->).
  exists answers, w. split; [done|]. simpl.
  destruct (omap id answers) as [|e errs]; by simpl.
Qed.

Lemma Close_in_manager entries sm r :
  (Close_in entries sm r).1.2 = set_sessions ∅ sm.
Proof. by destruct (Close_in_run entries sm r) as (answers & w & _ & ->). Qed.

(** The pool keeps every entry under the key of the headers recorded in
    it: a new manager has the property, and [GetSession] and [Close]
    preserve it, in both revisions. *)
Theorem pool_keyed_by key_fn sm ctx headers r entries r2 c t :
  key_fn = Exported.generateSessionKey ∨ key_fn = Internal.generateSessionKey →
  keyed_by key_fn sm →
  keyed_by key_fn (NewSessionManager c t)
  ∧ keyed_by key_fn (GetSession key_fn sm ctx headers r).1.2
  ∧ keyed_by key_fn (Close_in entries sm r2).1.2.
Proof.
  intros Hrev Hinv. split_and!.
  - intros k entry Hk. simpl in Hk. by rewrite lookup_empty in Hk.
  - destruct (GetSession_outcome key_fn sm ctx headers r)
      as (probes & w & _ & [(entry & _ & _ & ->) | (res & w' & _ & ->)]);
      [done|].
    destruct res as [err|s]; [done|]. simpl.
    intros k entry Hk. simpl in Hk.
    rewrite (generateSessionKey_transport key_fn _ sm) by done.
    destruct (decide (key_fn sm headers = k)) as [<- | Hne].
    + rewrite lookup_insert_eq in Hk. by injection Hk as <-.
    + rewrite lookup_insert_ne in Hk by done. by apply Hinv.
  - rewrite Close_in_manager. intros k entry Hk. simpl in Hk.
    by rewrite lookup_empty in Hk.
Qed.

(** The size of the pool after [GetSession]: unchanged when the key was
    already stored (a dead session is replaced, not added to) or when the
    call failed; one more when a session was connected for a new key. *)
Theorem GetSession_size key_fn sm ctx headers r :
  let '(res, sm', _) := GetSession key_fn sm ctx headers r in
  size sm'.(sessions)
  = match sm.(sessions) !! key_fn sm headers, res with
    | None, inr _ => S (size sm.(sessions))
    | _, _ => size sm.(sessions)
    end.
Proof.
  destruct (GetSession_outcome key_fn sm ctx headers r)
    as (probes & w & _ & [(entry & Hlook & _ & ->) | (res & w' & _ & ->)]).
  - by rewrite Hlook.
  - destruct res as [err|s]; simpl.
    + by destruct (sessions sm !! key_fn sm headers).
    + destruct (sessions sm !! key_fn sm headers) as [old|] eqn:Hlook.
      * by apply map_size_insert_Some.
      * by apply map_size_insert_None.
Qed.

(** Two header sets with different keys, asked for one after the other on
    a new pool, leave two entries, each holding its session and its
    headers; the second call connects without probing anything. *)
Theorem GetSession_two_header_sets c t ctx1 ctx2 h1 h2 r s1 sm1 r1 r2 s2 sm2 r2' :
  let sm := NewSessionManager c t in
  let k1 := Exported.generateSessionKey sm h1 in
  let k2 := Exported.generateSessionKey sm h2 in
  k1 ≠ k2 →
  GetSession Exported.generateSessionKey sm ctx1 h1 r = (inr s1, sm1, r1) →
  GetSession Exported.generateSessionKey sm1 ctx2 h2 r2 = (inr s2, sm2, r2') →
  sm2.(sessions)
  = <[k2 := mk_sessionEntry s2 h2]> {[ k1 := mk_sessionEntry s1 h1 ]}
  ∧ size sm2.(sessions) = 2
  ∧ calls_during r2 r2'
    = [ConnectCall c ctx2 (wrapTransportWithHeaders sm h2) (inr s2)].
Proof.
  intros sm k1 k2 Hne Hfirst Hsecond.
  destruct (GetSession_outcome Exported.generateSessionKey sm ctx1 h1 r)
    as (p1 & w1 & _ & [(entry & Hlook & _) | (res1 & w1' & _ & Hret1)]).
  { simpl in Hlook. by rewrite lookup_empty in Hlook. }
  rewrite Hret1 in Hfirst. destruct res1 as [err|s]; [discriminate|].
  injection Hfirst as <- <- <-. clear Hret1.
  unfold GetSession in Hsecond. fold k2 in Hsecond. simpl in Hsecond.
  change (Exported.generateSessionKey sm h1) with k1 in Hsecond.
  rewrite insert_empty, lookup_singleton_ne in Hsecond by done.
  unfold GetSession_locked in Hsecond. simpl in Hsecond.
  change (Exported.generateSessionKey _ h2) with k2 in Hsecond.
  rewrite lookup_singleton_ne in Hsecond by done.
  unfold connect_and_store, call_Connect, mbind, mret, Go_bind, Go_ret
    in Hsecond.
  simpl in Hsecond.
  change (wrapTransportWithHeaders _ h2)
    with (wrapTransportWithHeaders sm h2) in Hsecond.
  destruct (Connect c ctx2 (wrapTransportWithHeaders sm h2) (world r2))
    as [[err|s2'] w2] eqn:Hc; [discriminate|].
  injection Hsecond as <- <- <-. simpl. split_and!.
  - done.
  - rewrite map_size_insert_None by (by rewrite lookup_singleton_ne).
    by rewrite map_size_singleton.
  - apply calls_during_app.
Qed.

(** [Close] calls nothing but [Close] on sessions, once per stored entry,
    and a second [Close] finds nothing to do: it makes no call and returns
    no error. *)
Theorem Close_twice sm entries r :
  range_sessions sm entries →
  let '(_, sm', r') := Close_in entries sm r in
  Forall is_close (calls_during r r')
  ∧ length (calls_during r r') = size sm.(sessions)
  ∧ ∀ entries2 (r2 : Run W),
      range_sessions sm' entries2 →
      entries2 = [] ∧ Close_in entries2 sm' r2 = (None, sm', r2).
Proof.
  intros Hrange.
  destruct (Close_in_run entries sm r) as (answers & w & Hlen & ->).
  rewrite calls_during_app. split_and!.
  - apply Forall_forall. intros c Hc.
    apply list_elem_of_lookup in Hc as [i Hi].
    rewrite lookup_zip_with in Hi.
    destruct (entries !! i); [|done]. simpl in Hi.
    destruct (answers !! i); [|done]. by injection Hi as <-.
  - rewrite length_zip_with, Hlen, Nat.min_id, Hrange.
    apply length_map_to_list.
  - intros entries2 r2 Hr2. unfold range_sessions in Hr2. simpl in Hr2.
    rewrite map_to_list_empty in Hr2. apply Permutation_nil_r in Hr2 as ->.
    split; [done|]. by destruct r2.
Qed.

(** A pool that connected one session and is then closed makes one call,
    [Close] on that session, and reports its failure if there is one; the
    manager is again a new one. *)
Theorem GetSession_then_Close key_fn c t ctx headers r s sm1 r1 entries r2 :
  GetSession key_fn (NewSessionManager c t) ctx headers r = (inr s, sm1, r1) →
  range_sessions sm1 entries →
  Close_in entries sm1 r2
  = (let '(a, w) := Session_Close s r2.(world) in
     (match a with
      | Some err => Some (Errorf_v "errors closing sessions: " [err])
      | None => None
      end,
      NewSessionManager c t,
      mk_Run w (r2.(calls) ++ [CloseCall s a]))).
Proof.
  intros Hget Hrange.
  destruct (GetSession_outcome key_fn (NewSessionManager c t) ctx headers r)
    as (p1 & w1 & _ & [(entry & Hlook & _) | (res1 & w1' & _ & Hret1)]).
  { simpl in Hlook. by rewrite lookup_empty in Hlook. }
  rewrite Hret1 in Hget. destruct res1 as [err|s']; [discriminate|].
  injection Hget as <- <- <-.
  unfold range_sessions in Hrange. simpl in Hrange.
  rewrite insert_empty, map_to_list_singleton in Hrange.
  apply Permutation_singleton_r in Hrange as ->.
  cbv [Close_in close_entries mbind mret Go_bind Go_ret call_Close].
  simpl. destruct (Session_Close s' (world r2)) as [[err|] w]; reflexivity.
Qed.

End pool_laws.

Lemma pool_keyed_by_witness :
  let key_fn := @Exported.generateSessionKey go_stdlib in
  keyed_by key_fn one_session
  ∧ keyed_by key_fn (NewSessionManager 0 (OtherTransport 0))
  ∧ keyed_by key_fn
      (GetSession key_fn one_session Background None
         (mk_Run willing_peer [])).1.2
  ∧ keyed_by key_fn
      (Close_in [(key_fn stdio_manager bearer, mk_sessionEntry 7 bearer)]
         one_session (mk_Run willing_peer [])).1.2.
Proof.
  intros key_fn.
  assert (keyed_by key_fn one_session) as Hinv.
  { intros k entry Hk. unfold one_session in Hk. simpl in Hk.
    apply lookup_singleton_Some in Hk as [<- <-]. reflexivity. }
  split; [exact Hinv|].
  exact (pool_keyed_by (W := Peer) key_fn one_session Background None
           (mk_Run willing_peer []) _ (mk_Run willing_peer []) 0
           (OtherTransport 0) (or_introl eq_refl) Hinv).
Defined.

Lemma GetSession_two_header_sets_witness :
  let key_fn := @Exported.generateSessionKey go_stdlib in
  let sm := NewSessionManager 0 (OtherTransport 0) in
  let first := ConnectCall 0 Background (OtherTransport 0) (inr 7) in
  let second := ConnectCall 0 Background (OtherTransport 0) (inr 8) in
  let r1 := mk_Run (mk_Peer 8 false [] []) [first] in
  let r2 := mk_Run (mk_Peer 9 false [] []) [first; second] in
  let sm1 := set_sessions {[ key_fn sm bearer := mk_sessionEntry 7 bearer ]} sm in
  let sm2 :=
    set_sessions
      (<[key_fn sm None := mk_sessionEntry 8 None]>
         {[ key_fn sm bearer := mk_sessionEntry 7 bearer ]}) sm in
  key_fn sm bearer ≠ key_fn sm None
  ∧ GetSession key_fn sm Background bearer (mk_Run willing_peer [])
    = (inr 7, sm1, r1)
  ∧ GetSession key_fn sm1 Background None r1 = (inr 8, sm2, r2)
  ∧ size sm2.(sessions) = 2
  ∧ calls_during r1 r2 = [second].
Proof.
  intros key_fn sm first second r1 r2 sm1 sm2.
  assert (key_fn sm bearer ≠ key_fn sm None) as Hne
    by (vm_compute; discriminate).
  assert (GetSession key_fn sm Background bearer (mk_Run willing_peer [])
          = (inr 7, sm1, r1)) as Hfirst by (vm_compute; reflexivity).
  assert (GetSession key_fn sm1 Background None r1 = (inr 8, sm2, r2))
    as Hsecond by (vm_compute; reflexivity).
  split; [exact Hne|]. split; [exact Hfirst|]. split; [exact Hsecond|].
  destruct (GetSession_two_header_sets (H := go_stdlib) (W := Peer)
              0 (OtherTransport 0) Background Background bearer None
              (mk_Run willing_peer []) 7 sm1 r1 r1 8 sm2 r2
              Hne Hfirst Hsecond) as (_ & Hsize & Hcalls).
  split; [exact Hsize | exact Hcalls].
Defined.

Lemma Close_twice_witness :
  let entries := [("k", mk_sessionEntry 2 bearer);
                  ("default", mk_sessionEntry 1 None)] in
  range_sessions two_sessions entries
  ∧ let '(_, sm', r') := Close_in entries two_sessions (mk_Run failing_peer []) in
    Forall is_close (calls_during (mk_Run failing_peer []) r')
    ∧ length (calls_during (mk_Run failing_peer []) r') = size two_sessions.(sessions)
    ∧ ∀ entries2 (r2 : Run Peer),
        range_sessions sm' entries2 →
        entries2 = [] ∧ Close_in entries2 sm' r2 = (None, sm', r2).
Proof.
  intros entries.
  assert (range_sessions two_sessions entries) as Hrange
    by (unfold range_sessions; vm_compute;
        first [reflexivity | apply perm_swap]).
  split; [exact Hrange|].
  exact (Close_twice (W := Peer) two_sessions entries (mk_Run failing_peer [])
           Hrange).
Defined.

Lemma GetSession_then_Close_witness :
  let key_fn := @Exported.generateSessionKey go_stdlib in
  let r1 := mk_Run (mk_Peer 8 false [] [])
              [ConnectCall 0 Background (OtherTransport 0) (inr 7)] in
  GetSession key_fn (NewSessionManager 0 (OtherTransport 0)) Background bearer
    (mk_Run willing_peer []) = (inr 7, one_session, r1)
  ∧ range_sessions one_session [(key_fn stdio_manager bearer, mk_sessionEntry 7 bearer)]
  ∧ Close_in [(key_fn stdio_manager bearer, mk_sessionEntry 7 bearer)]
      one_session r1
    = (None, NewSessionManager 0 (OtherTransport 0),
       mk_Run (mk_Peer 8 false [7] [])
         [ConnectCall 0 Background (OtherTransport 0) (inr 7);
          CloseCall 7 None]).
Proof.
  intros key_fn r1.
  assert (GetSession key_fn (NewSessionManager 0 (OtherTransport 0)) Background
            bearer (mk_Run willing_peer []) = (inr 7, one_session, r1))
    as Hget by (vm_compute; reflexivity).
  assert (range_sessions one_session
            [(key_fn stdio_manager bearer, mk_sessionEntry 7 bearer)])
    as Hrange by (unfold range_sessions; vm_compute; reflexivity).
  split; [exact Hget|]. split; [exact Hrange|].
  exact (GetSession_then_Close (W := Peer) key_fn 0 (OtherTransport 0)
           Background bearer (mk_Run willing_peer []) 7 one_session r1 _ r1
           Hget Hrange).
Defined.

(** ** The round-tripper at its edges *)

(** A request whose header map is [nil]: with no header configured it is
    passed on as it is; with headers configured the write into the copy of
    the [nil] map panics before the base round-tripper is reached.  Both
    revisions behave so. *)
Theorem RoundTrip_nil_header pairs (t : headerTransport) req (σ : Heap) :
  σ !! req.(Header) = None →
  range_pairs t.(Headers) pairs →
  (len t.(Headers) = 0 →
   Exported.RoundTrip_in pairs t req σ = Some (mk_Forward (base t) req σ false)
   ∧ Internal.RoundTrip_in pairs t req σ
     = Some (mk_Forward (base t) req σ false))
  ∧ (len t.(Headers) ≠ 0 →
     Exported.RoundTrip_in pairs t req σ = None
     ∧ Internal.RoundTrip_in pairs t req σ = None).
Proof.
  intros Hnil Hrange.
  unfold Exported.RoundTrip_in, Internal.RoundTrip_in, Exported.deferred.
  split; intros Hlen.
  - rewrite !decide_True by done. by destruct (Body req).
  - rewrite !decide_False by done. unfold Clone. rewrite Hnil. simpl.
    destruct pairs as [|[k v] pairs].
    + destruct Hlen. unfold range_pairs in Hrange. unfold len.
      symmetry in Hrange. apply Permutation_nil_r in Hrange.
      apply map_to_list_empty_iff in Hrange. rewrite Hrange.
      apply map_size_empty.
    + simpl. by rewrite Hnil.
Qed.

Lemma RoundTrip_nil_header_witness :
  let t := mk_headerTransport None bearer in
  (∅ : Heap) !! plain_request.(Header) = None
  ∧ range_pairs t.(Headers) [("Authorization", "Bearer t")]
  ∧ Exported.RoundTrip_in [("Authorization", "Bearer t")] t plain_request ∅
    = None
  ∧ Internal.RoundTrip_in [("Authorization", "Bearer t")] t plain_request ∅
    = None.
Proof.
  intros t.
  assert ((∅ : Heap) !! plain_request.(Header) = None) as Hnil
    by (vm_compute; reflexivity).
  assert (range_pairs t.(Headers) [("Authorization", "Bearer t")]) as Hrange
    by (unfold range_pairs; vm_compute; reflexivity).
  split; [exact Hnil|]. split; [exact Hrange|].
  apply (RoundTrip_nil_header _ t plain_request ∅ Hnil Hrange).
  vm_compute. discriminate.
Defined.

(** The HTTP client of a transport bound by [wrapTransportWithHeaders]
    sends through a header transport that carries the bound headers, and
    a request sent through it goes on to the round-tripper of the original
    client, or to [http.DefaultTransport] when the original client is
    [nil] or has none. *)
Theorem bound_transport_round_trip (sm : SessionManager) (headers : StringMap)
    Endpoint (HTTPClient : option http_Client) :
  sm.(transport) = SSEClientTransport Endpoint HTTPClient
  ∨ sm.(transport) = StreamableClientTransport Endpoint HTTPClient →
  ∃ c (ht : headerTransport),
    (wrapTransportWithHeaders sm headers = SSEClientTransport Endpoint (Some c)
     ∨ wrapTransportWithHeaders sm headers
       = StreamableClientTransport Endpoint (Some c))
    ∧ c.(Transport) = Some (HeaderRoundTripper ht)
    ∧ ht.(Headers) = headers
    ∧ base ht = default DefaultTransport (HTTPClient ≫= Transport)
    ∧ ∀ pairs req (σ : Heap) hdr,
        σ !! req.(Header) = Some hdr →
        ∃ fwd, Exported.RoundTrip_in pairs ht req σ = Some fwd
               ∧ fwd.(next) = default DefaultTransport (HTTPClient ≫= Transport).
Proof.
  intros Ht.
  exists (wrapHTTPClient HTTPClient headers),
    (mk_headerTransport (default zero_Client HTTPClient).(Transport) headers).
  assert (base (mk_headerTransport (default zero_Client HTTPClient).(Transport)
                  headers)
          = default DefaultTransport (HTTPClient ≫= Transport)) as Hbase.
  { unfold base. simpl. destruct HTTPClient as [c|]; simpl; [|done].
    by destruct (Transport c). }
  split_and!; try done.
  - unfold wrapTransportWithHeaders. destruct Ht as [-> | ->]; [by left | by right].
  - intros pairs req σ hdr Hhdr. eexists.
    split; [by apply (RoundTrip_in_allocated _ _ _ _ hdr)|].
    rewrite <-Hbase. by case_decide.
Qed.

Lemma bound_transport_round_trip_witness :
  let sm := NewSessionManager 0 (SSEClientTransport "http://localhost/sse" None) in
  ∃ c (ht : headerTransport),
    (wrapTransportWithHeaders sm bearer
     = SSEClientTransport "http://localhost/sse" (Some c)
     ∨ wrapTransportWithHeaders sm bearer
       = StreamableClientTransport "http://localhost/sse" (Some c))
    ∧ c.(Transport) = Some (HeaderRoundTripper ht)
    ∧ ht.(Headers) = bearer
    ∧ base ht = DefaultTransport
    ∧ ∀ pairs req (σ : Heap) hdr,
        σ !! req.(Header) = Some hdr →
        ∃ fwd, Exported.RoundTrip_in pairs ht req σ = Some fwd
               ∧ fwd.(next) = DefaultTransport.
Proof.
  intros sm.
  exact (bound_transport_round_trip sm bearer "http://localhost/sse" None
           (or_introl eq_refl)).
Defined.

(** ** Distinct header maps are hashed from distinct strings *)

Lemma string_app_assoc (s1 s2 s3 : string) :
  (s1 +:+ s2) +:+ s3 = s1 +:+ (s2 +:+ s3).
Proof.
  induction s1 as [|c s1 IH]; [done|]. exact (f_equal (String c) IH).
Qed.

(** Reading back what [appendEscapedByte] wrote. *)
Lemma unescapeByte_appendEscapedByte c rest :
  unescapeByte (appendEscapedByte c +:+ rest) = Some (c, rest).
Proof. destruct c as [[] [] [] [] [] [] [] []]; reflexivity. Qed.

Lemma appendEscaped_read s1 s2 r1 r2 :
  appendEscaped s1 +:+ String dquote r1 = appendEscaped s2 +:+ String dquote r2 →
  s1 = s2 ∧ r1 = r2.
Proof.
  revert s2. induction s1 as [|c1 s1 IH]; intros [|c2 s2] Heq; simpl in Heq.
  - by injection Heq as ->.
  - apply (f_equal unescapeByte) in Heq.
    rewrite string_app_assoc, unescapeByte_appendEscapedByte in Heq.
    discriminate.
  - apply (f_equal unescapeByte) in Heq.
    rewrite string_app_assoc, unescapeByte_appendEscapedByte in Heq.
    discriminate.
  - apply (f_equal unescapeByte) in Heq.
    rewrite !string_app_assoc, !unescapeByte_appendEscapedByte in Heq.
    injection Heq as -> Heq. destruct (IH _ Heq) as [-> ->]. done.
Qed.

(** Quoting as Go does it on ASCII text is self-delimiting. *)
Lemma Quote_ascii_self_delimiting : self_delimiting Quote_ascii.
Proof.
  intros s1 s2 r1 r2 Heq. unfold Quote_ascii in Heq. simpl in Heq.
  injection Heq as Heq. rewrite !string_app_assoc in Heq. simpl in Heq.
  by apply appendEscaped_read.
Qed.

Section hashed_string.
Context `{GoLib}.
Hypothesis Quote_reads_back : self_delimiting Quote.

Lemma Join_cons e elems : Join (e :: elems) "," = e +:+ tail_of elems.
Proof.
  destruct elems; [|done]. simpl.
  induction e as [|c e IH]; [done|]. exact (f_equal (String c) IH).
Qed.

(** The joined pairs, closed by a brace, determine the pairs. *)
Lemma joined_pairs_inj (ps ps' : list (string * string)) :
  ps ≠ [] → ps' ≠ [] →
  Join (rendered_pair <$> ps) "," +:+ "}" = Join (rendered_pair <$> ps') "," +:+ "}" →
  ps = ps'.
Proof.
  revert ps'. induction ps as [|[k v] ps IH]; intros [|[k' v'] ps'] Hne Hne' Heq;
    try done.
  rewrite !fmap_cons, !Join_cons in Heq.
  unfold rendered_pair at 1 3 in Heq. unfold Sprintf_q_q in Heq.
  cbn [fst snd] in Heq. rewrite !string_app_assoc in Heq.
  apply Quote_reads_back in Heq as [-> Heq].
  apply (inj (String.append ":")) in Heq.
  apply Quote_reads_back in Heq as [-> Heq].
  destruct ps as [|p ps], ps' as [|p' ps']; [done| | |].
  - apply (f_equal (String.get 0)) in Heq. discriminate.
  - apply (f_equal (String.get 0)) in Heq. discriminate.
  - unfold tail_of in Heq. rewrite !fmap_cons, !string_app_assoc in Heq.
    apply (inj (String.append ",")) in Heq.
    f_equal. by apply IH.
Qed.

Lemma rendered_with_values (keys : list string) headers :
  (λ k, Sprintf_q_q k (index headers k)) <$> keys
  = rendered_pair <$> ((λ k, (k, index headers k)) <$> keys).
Proof. by rewrite <-list_fmap_compose. Qed.

(** Two non-empty header maps whose pairs are not the same are hashed
    from different strings, in whatever order their names are met. *)
Lemma jsonStr_inj keys1 keys2 (h1 h2 : StringMap) :
  range_keys h1 keys1 → range_keys h2 keys2 →
  len h1 ≠ 0 → len h2 ≠ 0 →
  jsonStr keys1 h1 = jsonStr keys2 h2 →
  entries h1 = entries h2.
Proof.
  intros Hk1 Hk2 Hlen1 Hlen2 Heq. unfold jsonStr in Heq. simpl in Heq.
  injection Heq as Heq. rewrite !rendered_with_values in Heq.
  assert (∀ keys (h : StringMap), range_keys h keys → len h ≠ 0 →
            (λ k, (k, index h k)) <$> sort_Strings keys ≠ []) as Hnonempty.
  { intros keys h Hk Hlen Hnil. apply fmap_nil_inv in Hnil.
    assert (keys = []) as ->.
    { apply Permutation_nil_r. by rewrite <-Hnil, sort_Strings_perm. }
    unfold range_keys in Hk. symmetry in Hk. apply Permutation_nil_r in Hk.
    apply fmap_nil_inv, map_to_list_empty_iff in Hk.
    apply Hlen. unfold len. rewrite Hk. apply map_size_empty. }
  apply joined_pairs_inj in Heq; [|by eapply Hnonempty..].
  assert (sort_Strings keys1 = sort_Strings keys2) as Hsame.
  { apply (f_equal (fmap fst)) in Heq.
    rewrite <-!list_fmap_compose in Heq. simpl in Heq.
    by rewrite !list_fmap_id in Heq. }
  assert (∀ keys (h : StringMap) k, range_keys h keys →
            k ∈ sort_Strings keys ↔ is_Some (entries h !! k)) as Hdom.
  { intros keys h k Hk. rewrite sort_Strings_perm, Hk.
    rewrite list_elem_of_fmap. split.
    - intros ([k0 v] & -> & Hin). apply elem_of_map_to_list in Hin. eauto.
    - intros [v Hv]. exists (k, v). split; [done|].
      by apply elem_of_map_to_list. }
  apply map_eq. intros k.
  destruct (decide (k ∈ sort_Strings keys1)) as [Hin | Hout].
  - assert (index h1 k = index h2 k) as Hidx.
    { rewrite <-Hsame in Heq.
      apply list_elem_of_lookup in Hin as [i Hi].
      apply (f_equal (λ l, l !! i)) in Heq.
      rewrite !list_lookup_fmap, Hi in Heq. simpl in Heq. congruence. }
    pose proof (proj1 (Hdom keys1 h1 k Hk1) Hin) as [v1 Hv1].
    rewrite Hsame in Hin.
    pose proof (proj1 (Hdom keys2 h2 k Hk2) Hin) as [v2 Hv2].
    unfold index in Hidx. rewrite Hv1, Hv2 in Hidx. simpl in Hidx.
    by rewrite Hv1, Hv2, Hidx.
  - assert (entries h1 !! k = None) as ->.
    { apply eq_None_not_Some. by rewrite <-(Hdom keys1 h1 k Hk1). }
    rewrite Hsame in Hout. symmetry.
    apply eq_None_not_Some. by rewrite <-(Hdom keys2 h2 k Hk2).
Qed.

End hashed_string.

(** ** Equal keys and equal digests *)

Lemma unhex_hextable_at i : (i < 16)%N → unhex (hextable_at i) = Some i.
Proof.
  intros Hi.
  assert (i ∈ (N.of_nat <$> seq 0 16)) as Hin.
  { apply list_elem_of_fmap. exists (N.to_nat i). split; [lia|].
    apply elem_of_seq. lia. }
  simpl in Hin. set_unfold in Hin.
  repeat (destruct Hin as [-> | Hin]; [by vm_compute|]). done.
Qed.

Lemma EncodeToString_inj : Inj (=) (=) EncodeToString.
Proof.
  intros l1. induction l1 as [|v1 l1 IH]; intros [|v2 l2] Heq; try done.
  simpl in Heq. injection Heq as Hhi Hlo Hrest.
  f_equal; [|by apply IH].
  pose proof (Byte.to_N_bounded v1). pose proof (Byte.to_N_bounded v2).
  apply (f_equal unhex) in Hhi, Hlo.
  rewrite !N.shiftr_div_pow2 in Hhi. change (2 ^ 4)%N with 16%N in Hhi.
  change 15%N with (N.ones 4) in Hlo. rewrite !N.land_ones in Hlo.
  change (2 ^ 4)%N with 16%N in Hlo.
  rewrite !unhex_hextable_at in Hhi, Hlo;
    try (by apply N.mod_lt); try (apply N.Div0.div_lt_upper_bound; lia).
  injection Hhi as Hhi. injection Hlo as Hlo.
  assert (Byte.to_N v1 = Byte.to_N v2) as Hn.
  { rewrite (N.div_mod (Byte.to_N v1) 16), (N.div_mod (Byte.to_N v2) 16) by done.
    by rewrite Hhi, Hlo. }
  apply (inj Some). by rewrite <-!Byte.of_to_N, Hn.
Qed.

(** For non-empty header maps, when quoting is self-delimiting: the
    strings that are hashed are equal exactly when the maps hold the same
    pairs, and the keys are equal exactly when the digests of those
    strings are.  So two maps that differ share a key only through a
    collision of the hash. *)
Theorem generateSessionKey_collision `{GoLib} keys1 keys2 sm1 sm2
    (h1 h2 : StringMap) :
  self_delimiting Quote →
  range_keys h1 keys1 → range_keys h2 keys2 →
  len h1 ≠ 0 → len h2 ≠ 0 →
  (jsonStr keys1 h1 = jsonStr keys2 h2 ↔ entries h1 = entries h2)
  ∧ (Exported.generateSessionKey_in keys1 sm1 h1
     = Exported.generateSessionKey_in keys2 sm2 h2
     ↔ md5_Sum (list_byte_of_string (jsonStr keys1 h1))
       = md5_Sum (list_byte_of_string (jsonStr keys2 h2))).
Proof.
  intros Hq Hk1 Hk2 Hlen1 Hlen2. split.
  - split; [by apply jsonStr_inj|].
    intros He. unfold jsonStr.
    rewrite (sort_Strings_order keys1 keys2).
    + assert (index h1 = index h2) as ->; [|done].
      unfold index. by rewrite He.
    + unfold range_keys in Hk1, Hk2. by rewrite Hk1, Hk2, He.
  - unfold Exported.generateSessionKey_in.
    rewrite !decide_False by done.
    change (hashHeaders keys1 h1) with
      (EncodeToString (vec_to_list (md5_Sum (list_byte_of_string (jsonStr keys1 h1))))).
    change (hashHeaders keys2 h2) with
      (EncodeToString (vec_to_list (md5_Sum (list_byte_of_string (jsonStr keys2 h2))))).
    split; [|by intros ->].
    intros Heq%EncodeToString_inj. by apply vec_to_list_inj2.
Qed.

Lemma generateSessionKey_collision_witness :
  let h1 : StringMap := Some (<["a" := "1"]> {[ "b" := "2" ]}) in
  let h2 : StringMap := Some {[ "a" := "1" ]} in
  (@jsonStr go_stdlib ["b"; "a"] h1 = @jsonStr go_stdlib ["a"] h2
   ↔ entries h1 = entries h2)
  ∧ (@Exported.generateSessionKey_in go_stdlib ["b"; "a"] stdio_manager h1
     = @Exported.generateSessionKey_in go_stdlib ["a"] stdio_manager h2
     ↔ md5.Sum (list_byte_of_string (@jsonStr go_stdlib ["b"; "a"] h1))
       = md5.Sum (list_byte_of_string (@jsonStr go_stdlib ["a"] h2))).
Proof.
  intros h1 h2.
  apply (@generateSessionKey_collision go_stdlib).
  - exact Quote_ascii_self_delimiting.
  - unfold range_keys. vm_compute. first [reflexivity | apply perm_swap].
  - unfold range_keys. vm_compute. reflexivity.
  - by vm_compute.
  - by vm_compute.
Defined.

(** * model/genai.go *)

Section gemini.
Implicit Types (m : GeminiModel) (req : adk.LLMRequest)
  (items : list (error + genai.GenerateContentResponse)).

(** Over a stream that pushes [items], the loop of [GenerateContent]
    pushes [yielded_from items], to every consumer. *)
Lemma stream_step_push items S (yield : Yielded → S → bool * S) s :
  push items S (stream_step yield) s = push (yielded_from items) S yield s.
Proof.
  revert s. induction items as [|[err|resp] items IH]; intros s; simpl.
  - done.
  - by destruct (yield (inl (ClientError err)) s) as [[] s'].
  - destruct (genai.Candidates resp) as [|candidate rest]; simpl.
    + by destruct (yield (inl (Errorf "empty response")) s) as [[] s'].
    + destruct (yield _ s) as [[] s']; simpl; [apply IH | done].
Qed.

(** A consumer that stops after [budget] values of a pushed list has seen
    its first [budget] elements. *)
Lemma first_values_push {A} (l : list A) budget :
  (1 ≤ budget)%nat → first_values (push l) budget = take budget l.
Proof.
  unfold first_values.
  assert (∀ seen n, (1 ≤ n)%nat →
            (push l (list A * nat)%type collect (seen, n)).1 = seen ++ take n l)
    as Hgen.
  { induction l as [|x l IH]; intros seen n Hn; simpl.
    - by rewrite take_nil, app_nil_r.
    - destruct n as [|n]; [lia|]. simpl. case_bool_decide.
      + rewrite IH by lia. by rewrite <-(assoc_L (++)).
      + assert (n = 0) as -> by lia. by rewrite take_0. }
  intros Hb. by rewrite Hgen.
Qed.

(** The values of the stream: an error is the last value, and the stream
    never yields more values than the client pushed items. *)
Lemma yielded_from_shape items :
  (length (yielded_from items) ≤ length items)%nat
  ∧ ∀ i e, yielded_from items !! i = Some (inl e) →
           S i = length (yielded_from items).
Proof.
  induction items as [|[err|resp] items [IHlen IHerr]]; simpl.
  - split; [lia | done].
  - split; [lia|]. intros [|i] e Hi; [done|]. by destruct i.
  - destruct (genai.Candidates resp) as [|candidate rest]; simpl.
    + split; [lia|]. intros [|i] e Hi; [done|]. by destruct i.
    + split; [lia|]. intros [|i] e Hi; [done|]. f_equal. by eapply IHerr.
Qed.

(** In stream mode, over a client whose stream pushes [items]: the
    iterator pushes the responses made from the first candidate of each
    item, up to the first item that is an error or has no candidate, and
    then that one error, and it stops as soon as the consumer does.  An
    error is the last value yielded.  Every response is marked partial
    exactly when its candidate has no finish reason, complete otherwise,
    and never interrupted. *)
Theorem GenerateContent_stream m ctx req client items :
  m.(model_client) = Some client →
  client.(genai.Models_GenerateContentStream) ctx m.(name)
    req.(adk.Contents) req.(adk.GenerateConfig) = push items →
  ∃ it,
    GenerateContent m ctx req true = inr it
    ∧ (∀ S (yield : Yielded → S → bool * S) s,
         it S yield s = push (yielded_from items) S yield s)
    ∧ (∀ budget, (1 ≤ budget)%nat →
         first_values it budget = take budget (yielded_from items))
    ∧ (length (yielded_from items) ≤ length items)%nat
    ∧ (∀ i e, yielded_from items !! i = Some (inl e) →
         S i = length (yielded_from items))
    ∧ (∀ i resp, yielded_from items !! i = Some (inr resp) →
         resp.(adk.Partial) = negb resp.(adk.TurnComplete)
         ∧ resp.(adk.Interrupted) = false
         ∧ ∃ item candidate rest,
             items !! i = Some (inr item)
             ∧ item.(genai.Candidates) = candidate :: rest
             ∧ resp.(adk.Content) = candidate.(genai.Content)
             ∧ resp.(adk.GroundingMetadata) = candidate.(genai.GroundingMetadata)
             ∧ (resp.(adk.TurnComplete) = true
                ↔ candidate.(genai.FinishReason) ≠ "")).
Proof.
  intros Hclient Hstream. unfold GenerateContent. rewrite Hclient.
  eexists. split; [reflexivity|].
  assert (∀ S (yield : Yielded → S → bool * S) s,
            push items S (stream_step yield) s
            = push (yielded_from items) S yield s) as Hpush
    by (intros; apply stream_step_push).
  split_and!.
  - intros S yield s. rewrite Hstream. apply Hpush.
  - intros budget Hb. rewrite <-first_values_push by done.
    unfold first_values. rewrite Hstream. by rewrite Hpush.
  - apply yielded_from_shape.
  - apply yielded_from_shape.
  - clear. induction items as [|[err|item] items IH]; intros i resp Hi;
      simpl in Hi; [done| by destruct i |].
    destruct (genai.Candidates item) as [|candidate rest] eqn:Hc;
      [by destruct i|].
    destruct i as [|i]; [|by apply IH].
    injection Hi as <-. simpl. split_and!; [done..|].
    exists item, candidate, rest. split_and!; [done..|].
    rewrite negb_true_iff. apply String.eqb_neq.
Qed.

(** In unary mode the iterator calls the consumer exactly once, whatever
    it answers: with the error of the client, with the error
    ["empty response"] when the response has no candidate, or with the
    response made from the first candidate, neither partial nor complete.
    Without a client, [GenerateContent] returns the error
    ["uninitialized"] and no iterator, in both modes. *)
Theorem GenerateContent_unary m ctx req :
  match m.(model_client) with
  | None =>
      ∀ stream, GenerateContent m ctx req stream = inl (Errorf "uninitialized")
  | Some client =>
      ∃ it value,
        GenerateContent m ctx req false = inr it
        ∧ (∀ S (yield : Yielded → S → bool * S) s,
             it S yield s = (yield value s).2)
        ∧ (∀ budget, first_values it budget = [value])
        ∧ value
          = match client.(genai.Models_GenerateContent) ctx m.(name)
                    req.(adk.Contents) req.(adk.GenerateConfig) with
            | inl err => inl (ClientError err)
            | inr resp =>
                match resp.(genai.Candidates) with
                | [] => inl (Errorf "empty response")
                | candidate :: _ =>
                    inr (adk.mk_LLMResponse candidate.(genai.Content)
                           candidate.(genai.GroundingMetadata)
                           false false false 0 "")
                end
            end
  end.
Proof.
  unfold GenerateContent. destruct (model_client m) as [client|]; [|done].
  eexists _, _. split; [reflexivity|].
  split_and!; [| | reflexivity].
  - intros S yield s.
    destruct (genai.Models_GenerateContent client ctx (name m)
                (adk.Contents req) (adk.GenerateConfig req)) as [err|resp];
      [done|].
    by destruct (genai.Candidates resp).
  - intros budget. unfold first_values.
    destruct (genai.Models_GenerateContent client ctx (name m)
                (adk.Contents req) (adk.GenerateConfig req)) as [err|resp];
      [done|].
    by destruct (genai.Candidates resp).
Qed.

End gemini.

Lemma GenerateContent_stream_witness :
  let partial := genai.mk_Candidate (Some 1) "" None in
  let final := genai.mk_Candidate (Some 2) "STOP" (Some 5) in
  let items :=
    [inr (genai.mk_GenerateContentResponse [partial]);
     inr (genai.mk_GenerateContentResponse [final]);
     inl (ExternalError "deadline exceeded");
     inr (genai.mk_GenerateContentResponse [partial])] in
  let m := mk_GeminiModel
             (Some (scripted_client (inl (ExternalError "unused")) items))
             "gemini" in
  ∃ it,
    GenerateContent m Background (adk.mk_LLMRequest 0 0) true = inr it
    ∧ first_values it 2
      = [inr (adk.mk_LLMResponse (Some 1) None true false false 0 "");
         inr (adk.mk_LLMResponse (Some 2) (Some 5) false true false 0 "")]
    ∧ first_values it 9
      = [inr (adk.mk_LLMResponse (Some 1) None true false false 0 "");
         inr (adk.mk_LLMResponse (Some 2) (Some 5) false true false 0 "");
         inl (ClientError (ExternalError "deadline exceeded"))].
Proof.
  intros partial final items m.
  destruct (GenerateContent_stream m Background (adk.mk_LLMRequest 0 0)
              (scripted_client (inl (ExternalError "unused")) items) items
              eq_refl eq_refl) as (it & Hit & _ & Hfirst & _).
  exists it. split; [exact Hit|]. split.
  - rewrite (Hfirst 2) by lia. reflexivity.
  - rewrite (Hfirst 9) by lia. reflexivity.
Defined.

(** * The sentinel key and the entry stored under it *)



